(** * FP&A use case finder: the search engine of [searcher.py]

    A shallow embedding of [UseCaseSearcher] and of the parts of
    [UseCaseDatabase] it calls, followed by the properties of scoring,
    searching, similarity, recommendation and phrase aggregation.

    Conventions of the embedding.

    - Text.  A Python [str] is a [string]; [str.lower] folds the ASCII
      letters and leaves every other character alone, and [str.split]
      cuts at the ASCII white space characters.  The catalog and the key
      phrases of the source are ASCII text (one multiplication sign in an
      example prompt apart, which neither function touches).
    - Scores.  Every weight of the source is a multiple of 0.5, so every
      score is a whole number of halves.  Such numbers are binary64 values
      and their sums and their products with a count are exact while they
      stay below 2^52, which a catalog held in memory cannot leave.  A
      score is kept as its number of halves, a [Z]: [10.0] is [20], [3.0]
      is [6], [1.5] is [3], and [score > 0] is [0 < score].
    - Sets of strings ([set(...)], [&], [len]) are [gset string].
    - [list.sort(key=..., reverse=True)] is Python's built-in stable sort:
      descending keys, equal keys in their original order. *)

From Stdlib Require Import ZArith Lia Ascii.
From stdpp Require Import base list strings gmap sorting.

Local Open Scope Z_scope.

(** ** Python string primitives *)

Module PyStr.

(** [c.lower()] on one ASCII character. *)
Definition lower_char (c : ascii) : ascii :=
  let n := Ascii.N_of_ascii c in
  if ((65 <=? n) && (n <=? 90))%N then Ascii.ascii_of_N (n + 32) else c.

(** [s.lower()] *)
Fixpoint lower (s : string) : string :=
  match s with
  | EmptyString => EmptyString
  | String c s' => String (lower_char c) (lower s')
  end.

(** [s.startswith(p)] *)
Fixpoint startswith (p s : string) : bool :=
  match p, s with
  | EmptyString, _ => true
  | String _ _, EmptyString => false
  | String a p', String b s' => bool_decide (a = b) && startswith p' s'
  end.

(** [needle in hay]: [needle] occurs in [hay] as a contiguous substring. *)
Fixpoint str_in (needle hay : string) : bool :=
  startswith needle hay ||
  match hay with
  | EmptyString => false
  | String _ hay' => str_in needle hay'
  end.

(** [c.isspace()] on one ASCII character: tab, line feed, vertical tab,
    form feed, carriage return, the four separators 28..31, and space. *)
Definition isspace (c : ascii) : bool :=
  let n := Ascii.N_of_ascii c in
  (((9 <=? n) && (n <=? 13)) || ((28 <=? n) && (n <=? 32)))%N.

Definition flush (cur : string) : list string :=
  match cur with
  | EmptyString => []
  | _ => [cur]
  end.

(** [s.split()] without arguments: the maximal runs of non-space
    characters, in order; no empty strings. [cur] is the run being read. *)
Fixpoint split_go (cur s : string) : list string :=
  match s with
  | EmptyString => flush cur
  | String c s' =>
      if isspace c then flush cur ++ split_go EmptyString s'
      else split_go (cur +:+ String c EmptyString) s'
  end.

Definition split (s : string) : list string := split_go EmptyString s.

(** [s.replace(old, new)] for one-character [old] and [new]. *)
Fixpoint replace (old new : ascii) (s : string) : string :=
  match s with
  | EmptyString => EmptyString
  | String c s' =>
      String (if bool_decide (c = old) then new else c) (replace old new s')
  end.

(** [sep.join(parts)] *)
Fixpoint join (sep : string) (parts : list string) : string :=
  match parts with
  | [] => EmptyString
  | [p] => p
  | p :: rest => p +:+ sep +:+ join sep rest
  end.

(** [len(s)] *)
Definition len (s : string) : Z := Z.of_nat (String.length s).

End PyStr.

Import PyStr.

(** ** categories.py *)

Inductive FPACategory :=
  | BUDGETING | FORECASTING | VARIANCE_ANALYSIS | FINANCIAL_MODELING
  | REPORTING | DATA_INTEGRATION | SCENARIO_PLANNING | COMPLIANCE
  | AUTOMATION | EXCEL_INTEGRATION.

Inductive ComplexityLevel := BEGINNER | INTERMEDIATE | ADVANCED | EXPERT.

Inductive ImplementationTime := MINUTES | HOURS | DAYS | WEEKS.

Global Instance FPACategory_eq_dec : EqDecision FPACategory.
Proof. solve_decision. Defined.

Global Instance ComplexityLevel_eq_dec : EqDecision ComplexityLevel.
Proof. solve_decision. Defined.

Definition FPACategory_to_nat (c : FPACategory) : nat :=
  match c with
  | BUDGETING => 0 | FORECASTING => 1 | VARIANCE_ANALYSIS => 2
  | FINANCIAL_MODELING => 3 | REPORTING => 4 | DATA_INTEGRATION => 5
  | SCENARIO_PLANNING => 6 | COMPLIANCE => 7 | AUTOMATION => 8
  | EXCEL_INTEGRATION => 9
  end%nat.

Definition FPACategory_of_nat (n : nat) : option FPACategory :=
  match n with
  | 0 => Some BUDGETING | 1 => Some FORECASTING | 2 => Some VARIANCE_ANALYSIS
  | 3 => Some FINANCIAL_MODELING | 4 => Some REPORTING
  | 5 => Some DATA_INTEGRATION | 6 => Some SCENARIO_PLANNING
  | 7 => Some COMPLIANCE | 8 => Some AUTOMATION | 9 => Some EXCEL_INTEGRATION
  | _ => None
  end%nat.

Global Instance FPACategory_countable : Countable FPACategory :=
  inj_countable FPACategory_to_nat FPACategory_of_nat
    (λ c, match c with
          | BUDGETING | FORECASTING | VARIANCE_ANALYSIS | FINANCIAL_MODELING
          | REPORTING | DATA_INTEGRATION | SCENARIO_PLANNING | COMPLIANCE
          | AUTOMATION | EXCEL_INTEGRATION => eq_refl
          end).

(** ** use_cases.py *)

(** The [UseCase] dataclass. [date_added], a time stamp taken when the
    catalog is loaded, is read by no function of the searcher and is left
    out. *)
Record UseCase := {
  id : string;
  title : string;
  description : string;
  category : FPACategory;
  subcategories : list string;
  complexity : ComplexityLevel;
  implementation_time : ImplementationTime;
  benefits : list string;
  example_prompts : list string;
  tools_used : list string;
  source : string;
  source_url : option string;
  productivity_gain : option string;
  tags : list string;
}.

Record UseCaseDatabase := { use_cases : list UseCase }.

Definition get_all_use_cases (self : UseCaseDatabase) : list UseCase :=
  use_cases self.

(** [get_by_id]: the first record with that id, or [None]. *)
Fixpoint get_by_id_loop (ucs : list UseCase) (use_case_id : string)
  : option UseCase :=
  match ucs with
  | [] => None
  | uc :: rest =>
      if bool_decide (id uc = use_case_id) then Some uc
      else get_by_id_loop rest use_case_id
  end.

Definition get_by_id (self : UseCaseDatabase) (use_case_id : string)
  : option UseCase :=
  get_by_id_loop (use_cases self) use_case_id.

(** ** Built-ins used by the searcher *)

(** [l[:limit]]: the first [limit] elements, and for a negative [limit]
    all but the last [-limit]. *)
Definition slice_to {A} (l : list A) (limit : Z) : list A :=
  if 0 <=? limit then take (Z.to_nat limit) l
  else take (length l - Z.to_nat (- limit))%nat l.

(** [l.sort(key=key, reverse=True)]: stable, descending. An element is put
    behind the larger keys and in front of the first key that is not
    larger, so that equal keys keep the order they had in [l]. *)
Section sort.
Context {A : Type} (key : A → Z).

Fixpoint insert_desc (x : A) (l : list A) : list A :=
  match l with
  | [] => [x]
  | y :: l' => if key x <? key y then y :: insert_desc x l' else x :: l
  end.

Fixpoint sort_desc (l : list A) : list A :=
  match l with
  | [] => []
  | x :: l' => insert_desc x (sort_desc l')
  end.

(** Descending order of the keys. *)
Definition desc (a b : A) : Prop := key b ≤ key a.
End sort.

(** [len(set(a) & set(b))] *)
Definition overlap (a b : gset string) : Z := Z.of_nat (size (a ∩ b)).

(** ** searcher.py *)

Record SearchResult := {
  use_case : UseCase;
  relevance_score : Z;
  matched_fields : list string;
}.

Record UseCaseSearcher := {
  database : UseCaseDatabase;
  keyword_index : gmap string (list string);
  category_index : gmap FPACategory (list string);
}.

Definition stopwords : gset string :=
  list_to_set
    ["a"; "an"; "the"; "and"; "or"; "but"; "in"; "on"; "at"; "to";
     "for"; "of"; "with"; "by"; "from"; "as"; "is"; "was"; "are";
     "were"; "been"; "be"; "have"; "has"; "had"; "do"; "does";
     "did"; "will"; "would"; "could"; "should"; "may"; "might";
     "can"; "that"; "this"; "these"; "those"].

(** [_extract_keywords]. The order of [list(set(keywords))] is the set's
    own; here it is the order of [elements]. *)
Definition _extract_keywords (use_case : UseCase) : list string :=
  let text :=
    title use_case +:+ " " +:+ description use_case +:+ " " +:+
    join " " (tags use_case) in
  let text := lower text in
  let words := split (replace "." " " (replace "," " " text)) in
  let keywords :=
    filter (λ w, 2 < len w ∧ w ∉ stopwords) words in
  elements (list_to_set keywords : gset string).

(** [if k not in index: index[k] = []] followed by [index[k].append(v)]. *)
Definition index_append `{Countable K} (k : K) (v : string)
    (index : gmap K (list string)) : gmap K (list string) :=
  <[k := default [] (index !! k) ++ [v]]> index.

(** The body of the loop of [_build_index] on one record. *)
Definition _build_index_step
    (st : gmap string (list string) * gmap FPACategory (list string))
    (uc : UseCase)
  : gmap string (list string) * gmap FPACategory (list string) :=
  let '(keyword_index, category_index) := st in
  let keywords := _extract_keywords uc in
  let keyword_index :=
    foldl (λ index keyword, index_append keyword (id uc) index)
          keyword_index keywords in
  let category_index := index_append (category uc) (id uc) category_index in
  (keyword_index, category_index).

Definition _build_index (database : UseCaseDatabase)
  : gmap string (list string) * gmap FPACategory (list string) :=
  foldl _build_index_step (∅, ∅) (get_all_use_cases database).

(** [UseCaseSearcher(database)]. Called without a database the source
    passes a fresh [UseCaseDatabase()], the built-in catalog. *)
Definition UseCaseSearcher_init (database : UseCaseDatabase) : UseCaseSearcher :=
  let '(keyword_index, category_index) := _build_index database in
  {| database := database;
     keyword_index := keyword_index;
     category_index := category_index |}.

(** [if name not in matched_fields: matched_fields.append(name)] *)
Definition append_once (name : string) (matched_fields : list string)
  : list string :=
  if bool_decide (name ∈ matched_fields) then matched_fields
  else matched_fields ++ [name].

(** The loop over the tags, and with other constants over the tools: every
    entry that contains the query or is contained in it adds [weight]. *)
Fixpoint each_loop (weight : Z) (name : string) (entries : list string)
    (query : string) (st : Z * list string) : Z * list string :=
  match entries with
  | [] => st
  | entry :: rest =>
      let '(score, matched_fields) := st in
      if str_in (lower entry) query || str_in query (lower entry)
      then each_loop weight name rest query
             (score + weight, append_once name matched_fields)
      else each_loop weight name rest query st
  end.

(** The loop over the example prompts, and with other constants over the
    benefits: the first entry that contains the query adds [weight], and
    the [break] ends the loop. *)
Fixpoint first_loop (weight : Z) (name : string) (entries : list string)
    (query : string) (st : Z * list string) : Z * list string :=
  match entries with
  | [] => st
  | entry :: rest =>
      let '(score, matched_fields) := st in
      if str_in query (lower entry)
      then (score + weight, append_once name matched_fields)
      else first_loop weight name rest query st
  end.

Definition _calculate_relevance (use_case : UseCase) (query : string)
    (query_keywords : gset string) : Z * list string :=
  let score := 0 in
  let matched_fields : list string := [] in
  (* Title match (highest weight) *)
  let '(score, matched_fields) :=
    if str_in query (lower (title use_case))
    then (score + 20, matched_fields ++ ["title"])
    else
      let title_keywords : gset string :=
        list_to_set (split (lower (title use_case))) in
      let title_overlap := overlap query_keywords title_keywords in
      if 0 <? title_overlap
      then (score + title_overlap * 6, matched_fields ++ ["title"])
      else (score, matched_fields) in
  (* Description match *)
  let '(score, matched_fields) :=
    if str_in query (lower (description use_case))
    then (score + 10, matched_fields ++ ["description"])
    else
      let desc_keywords : gset string :=
        list_to_set (split (lower (description use_case))) in
      let desc_overlap := overlap query_keywords desc_keywords in
      if 0 <? desc_overlap
      then (score + desc_overlap * 3, append_once "description" matched_fields)
      else (score, matched_fields) in
  (* Tags match *)
  let st := each_loop 8 "tags" (tags use_case) query (score, matched_fields) in
  (* Example prompts match *)
  let st := first_loop 6 "prompts" (example_prompts use_case) query st in
  (* Tools match *)
  let st := each_loop 4 "tools" (tools_used use_case) query st in
  (* Benefits match *)
  first_loop 3 "benefits" (benefits use_case) query st.

(** [set(query_lower.replace(',', ' ').replace('.', ' ').split())] *)
Definition query_keywords_of (query_lower : string) : gset string :=
  list_to_set (split (replace "." " " (replace "," " " query_lower))).

(** The truth value of an [Optional[List]] argument: [None] and the empty
    list are false. *)
Definition truthy {A} (l : option (list A)) : bool :=
  match l with
  | None | Some [] => false
  | Some (_ :: _) => true
  end.

(** [uc.category not in categories], evaluated only for a true [categories]. *)
Definition category_not_in (uc : UseCase) (categories : option (list FPACategory))
  : bool :=
  negb (bool_decide (category uc ∈ default [] categories)).

(** [complexity and uc.complexity != complexity]: a member of the
    enumeration is always true, so only [None] is false. *)
Definition complexity_differs (uc : UseCase) (wanted : option ComplexityLevel)
  : bool :=
  match wanted with
  | None => false
  | Some c => negb (bool_decide (complexity uc = c))
  end.

(** The body of the loop of [search] on one record; [continue] returns the
    results unchanged. *)
Definition search_step (query_lower : string) (query_keywords : gset string)
    (categories : option (list FPACategory))
    (complexity : option ComplexityLevel)
    (results : list SearchResult) (uc : UseCase) : list SearchResult :=
  (* Apply filters *)
  if truthy categories && category_not_in uc categories then results
  else if complexity_differs uc complexity then results
  else
    (* Calculate relevance score *)
    let '(score, matched) := _calculate_relevance uc query_lower query_keywords in
    if 0 <? score
    then results ++ [{| use_case := uc;
                        relevance_score := score;
                        matched_fields := matched |}]
    else results.

Definition search (self : UseCaseSearcher) (query : string)
    (categories : option (list FPACategory))
    (complexity : option ComplexityLevel) (limit : Z) : list SearchResult :=
  let query_lower := lower query in
  let query_keywords := query_keywords_of query_lower in
  let results :=
    foldl (search_step query_lower query_keywords categories complexity)
          [] (get_all_use_cases (database self)) in
  (* Sort by relevance score descending *)
  let results := sort_desc relevance_score results in
  slice_to results limit.

(** [search(query)] and [search(query, limit=n)] with the defaults of the
    signature: no filter, [limit = 10]. *)
Definition search_limit (self : UseCaseSearcher) (query : string) (limit : Z)
  : list SearchResult :=
  search self query None None limit.

Definition search_default (self : UseCaseSearcher) (query : string)
  : list SearchResult :=
  search_limit self query 10.

(** [len(set(a) & set(b))] on two lists of strings. *)
Definition list_overlap (a b : list string) : Z :=
  overlap (list_to_set a) (list_to_set b).

(** The body of the loop of [get_similar_use_cases] on one record. *)
Definition similar_step (use_case_id : string) (source_uc : UseCase)
    (scores : list (UseCase * Z)) (uc : UseCase) : list (UseCase * Z) :=
  if bool_decide (id uc = use_case_id) then scores
  else
    let score := 0 in
    (* Same category *)
    let score :=
      if bool_decide (category uc = category source_uc) then score + 10
      else score in
    (* Overlapping tags *)
    let tag_overlap := list_overlap (tags uc) (tags source_uc) in
    let score := score + tag_overlap * 4 in
    (* Same complexity *)
    let score :=
      if bool_decide (complexity uc = complexity source_uc) then score + 2
      else score in
    (* Same tools *)
    let tool_overlap := list_overlap (tools_used uc) (tools_used source_uc) in
    let score := score + tool_overlap * 3 in
    if 0 <? score then scores ++ [(uc, score)] else scores.

Definition get_similar_use_cases (self : UseCaseSearcher)
    (use_case_id : string) (limit : Z) : list UseCase :=
  match get_by_id (database self) use_case_id with
  | None => []
  | Some source_uc =>
      let scores :=
        foldl (similar_step use_case_id source_uc)
              [] (get_all_use_cases (database self)) in
      (* Sort by score *)
      let scores := sort_desc snd scores in
      fst <$> slice_to scores limit
  end.

(** The [user_context] dictionary: each of the four keys the function
    reads may be absent. *)
Record UserContext := {
  ctx_tools : option (list string);
  ctx_challenges : option (list string);
  ctx_role : option string;
  ctx_experience : option string;
}.

(** [if 'tools' in user_context: ...] *)
Definition tools_block (uc : UseCase) (user_context : UserContext) (score : Z) : Z :=
  match ctx_tools user_context with
  | None => score
  | Some tools =>
      foldl
        (λ score tool,
           if existsb (λ t, str_in (lower tool) (lower t)) (tools_used uc)
           then score + 6 else score)
        score tools
  end.

(** The body of [for challenge in user_context['challenges']]. *)
Definition challenge_step (uc : UseCase) (score : Z) (challenge : string) : Z :=
  let challenge_lower := lower challenge in
  let score :=
    if str_in challenge_lower (lower (description uc)) then score + 8
    else score in
  foldl
    (λ score benefit,
       if str_in challenge_lower (lower benefit) then score + 4 else score)
    score (benefits uc).

(** [if 'challenges' in user_context: ...] *)
Definition challenges_block (uc : UseCase) (user_context : UserContext)
    (score : Z) : Z :=
  match ctx_challenges user_context with
  | None => score
  | Some challenges => foldl (challenge_step uc) score challenges
  end.

Definition role_category_map : list (string * list FPACategory) :=
  [("budget", [BUDGETING]);
   ("forecast", [FORECASTING]);
   ("analyst", [VARIANCE_ANALYSIS; FINANCIAL_MODELING]);
   ("manager", [REPORTING; SCENARIO_PLANNING]);
   ("controller", [COMPLIANCE; AUTOMATION])].

(** [if 'role' in user_context: ...] *)
Definition role_block (uc : UseCase) (user_context : UserContext) (score : Z) : Z :=
  match ctx_role user_context with
  | None => score
  | Some role =>
      let role_lower := lower role in
      foldl
        (λ score '(keyword, categories),
           if str_in keyword role_lower && bool_decide (category uc ∈ categories)
           then score + 10 else score)
        score role_category_map
  end.

(** [if user_context.get('experience', 'intermediate') == 'beginner': ...] *)
Definition experience_block (uc : UseCase) (user_context : UserContext)
    (score : Z) : Z :=
  if bool_decide (default "intermediate" (ctx_experience user_context) = "beginner")
  then
    if bool_decide (complexity uc ∈ [BEGINNER; INTERMEDIATE]) then score + 4
    else score
  else score.

(** The body of the loop of [get_recommended_use_cases] on one record. *)
Definition recommend_score (uc : UseCase) (user_context : UserContext) : Z :=
  let score := 0 in
  let score := tools_block uc user_context score in
  let score := challenges_block uc user_context score in
  let score := role_block uc user_context score in
  experience_block uc user_context score.

Definition recommend_step (user_context : UserContext)
    (scores : list (UseCase * Z)) (uc : UseCase) : list (UseCase * Z) :=
  let score := recommend_score uc user_context in
  if 0 <? score then scores ++ [(uc, score)] else scores.

Definition get_recommended_use_cases (self : UseCaseSearcher)
    (user_context : UserContext) : list UseCase :=
  let all_use_cases := get_all_use_cases (database self) in
  let scores := foldl (recommend_step user_context) [] all_use_cases in
  let scores := sort_desc snd scores in
  fst <$> slice_to scores 10.

Definition key_phrases : list string :=
  ["budget"; "forecast"; "variance"; "model"; "report"; "dashboard";
   "automate"; "excel"; "dcf"; "lbo"; "consolidate"; "scenario";
   "sensitivity"; "monte carlo"; "cash flow"; "revenue"; "expense";
   "audit"; "compliance"; "sox"; "erp"; "integration"; "api";
   "kpi"; "close"; "month-end"; "vba"; "python"; "sql"].

(** ** The [combined_results] dictionary of [search_by_prompt]

    A Python [dict] keeps its keys in the order of their first insertion,
    and [list(d.values())] reads them in that order: an association list
    with one entry per key. *)

(** [k in d] *)
Definition dict_contains (k : string) (d : list (string * SearchResult)) : bool :=
  existsb (λ kv, bool_decide (kv.1 = k)) d.

(** [d[k].relevance_score += s]: the entry keeps its place, its record and
    its matched fields. *)
Definition boost (s : Z) (r : SearchResult) : SearchResult :=
  {| use_case := use_case r;
     relevance_score := relevance_score r + s;
     matched_fields := matched_fields r |}.

Fixpoint dict_boost (k : string) (s : Z) (d : list (string * SearchResult))
  : list (string * SearchResult) :=
  match d with
  | [] => []
  | (k', r) :: d' =>
      if bool_decide (k' = k) then (k', boost s r) :: d'
      else (k', r) :: dict_boost k s d'
  end.

(** The body of [for result in results]. *)
Definition merge_step (combined_results : list (string * SearchResult))
    (result : SearchResult) : list (string * SearchResult) :=
  let k := id (use_case result) in
  if negb (dict_contains k combined_results)
  then combined_results ++ [(k, result)]
  else
    (* Boost score for multiple matches *)
    dict_boost k (relevance_score result) combined_results.

(** [[p for p in key_phrases if p in task_lower]] *)
Definition found_phrases_of (task_description : string) : list string :=
  let task_lower := lower task_description in
  filter (λ p, str_in p task_lower) key_phrases.

(** The dictionary after the loop over the found phrases. *)
Definition combine (self : UseCaseSearcher) (found_phrases : list string)
  : list (string * SearchResult) :=
  foldl
    (λ combined_results phrase,
       let results := search_limit self phrase 5 in
       foldl merge_step combined_results results)
    [] found_phrases.

Definition search_by_prompt (self : UseCaseSearcher) (task_description : string)
  : list SearchResult :=
  let found_phrases := found_phrases_of task_description in
  match found_phrases with
  | [] =>
      (* Fall back to basic search *)
      search_default self task_description
  | _ :: _ =>
      (* Search with combined phrases *)
      let combined_results := combine self found_phrases in
      let final_results := snd <$> combined_results in
      let final_results := sort_desc relevance_score final_results in
      slice_to final_results 10
  end.

(** ** The scoring rules as the specification words them *)

Module Spec.

(** How many entries of [l] satisfy [P]. *)
Definition count {A} (P : A → Prop) `{!∀ x, Decision (P x)} (l : list A) : Z :=
  Z.of_nat (length (filter P l)).

(** The whitespace-split token set of a text. *)
Definition tokens (s : string) : gset string := list_to_set (split s).

(** The lowercased entry is a substring of the query, or the query is a
    substring of the lowercased entry. *)
Definition touches (query entry : string) : bool :=
  str_in (lower entry) query || str_in query (lower entry).

(** The query is a substring of the lowercased entry. *)
Definition contains (query entry : string) : bool :=
  str_in query (lower entry).

(** Title: 10.0 for the exact substring, else 3.0 per common token. *)
Definition title_score (uc : UseCase) (query : string) (qk : gset string) : Z :=
  if contains query (title uc) then 20
  else 6 * overlap qk (tokens (lower (title uc))).

(** Description: 5.0 for the exact substring, else 1.5 per common token. *)
Definition description_score (uc : UseCase) (query : string)
    (qk : gset string) : Z :=
  if contains query (description uc) then 10
  else 3 * overlap qk (tokens (lower (description uc))).

(** Tags: 4.0 for each tag that touches the query. *)
Definition tags_score (uc : UseCase) (query : string) : Z :=
  8 * count (touches query) (tags uc).

(** Example prompts: 3.0 once, if some prompt contains the query. *)
Definition prompts_score (uc : UseCase) (query : string) : Z :=
  if existsb (contains query) (example_prompts uc) then 6 else 0.

(** Tools: 2.0 for each tool that touches the query. *)
Definition tools_score (uc : UseCase) (query : string) : Z :=
  4 * count (touches query) (tools_used uc).

(** Benefits: 1.5 once, if some benefit contains the query. *)
Definition benefits_score (uc : UseCase) (query : string) : Z :=
  if existsb (contains query) (benefits uc) then 3 else 0.

Definition score (uc : UseCase) (query : string) (qk : gset string) : Z :=
  title_score uc query qk + description_score uc query qk +
  tags_score uc query + prompts_score uc query +
  tools_score uc query + benefits_score uc query.

(** The matched fields: the fields that added to the score, in the order
    of the table. *)
Definition mark (name : string) (contribution : Z) : list string :=
  if 0 <? contribution then [name] else [].

Definition matched (uc : UseCase) (query : string) (qk : gset string)
  : list string :=
  mark "title" (title_score uc query qk) ++
  mark "description" (description_score uc query qk) ++
  mark "tags" (tags_score uc query) ++
  mark "prompts" (prompts_score uc query) ++
  mark "tools" (tools_score uc query) ++
  mark "benefits" (benefits_score uc query).

(** Filter pass of [search]: a record is kept when it matches every
    filter that is in force. *)
Definition passes (categories : option (list FPACategory))
    (wanted : option ComplexityLevel) (uc : UseCase) : bool :=
  negb (truthy categories && category_not_in uc categories) &&
  negb (complexity_differs uc wanted).

(** Score pass of [search] on one record. *)
Definition score_record (query_lower : string) (qk : gset string)
    (uc : UseCase) : SearchResult :=
  {| use_case := uc;
     relevance_score := (_calculate_relevance uc query_lower qk).1;
     matched_fields := (_calculate_relevance uc query_lower qk).2 |}.

(** The records that pass the filters and score above 0, in catalog
    order, with their scores. *)
Definition candidates (db : UseCaseDatabase) (query : string)
    (categories : option (list FPACategory))
    (wanted : option ComplexityLevel) : list SearchResult :=
  let query_lower := lower query in
  let qk := query_keywords_of query_lower in
  filter (λ r, 0 < relevance_score r)
         (score_record query_lower qk <$>
            filter (λ uc, passes categories wanted uc) (use_cases db)).

(** The naive scan: filter, score, sort, truncate; no index. *)
Definition naive_search (db : UseCaseDatabase) (query : string)
    (categories : option (list FPACategory))
    (wanted : option ComplexityLevel) (limit : Z) : list SearchResult :=
  slice_to (sort_desc relevance_score (candidates db query categories wanted))
           limit.

(** Similarity of a record to the source record:
    5.0 (same category) + 2.0 per common tag + 1.0 (same complexity) +
    1.5 per common tool. *)
Definition similarity (source_uc uc : UseCase) : Z :=
  (if bool_decide (category uc = category source_uc) then 10 else 0) +
  4 * list_overlap (tags uc) (tags source_uc) +
  (if bool_decide (complexity uc = complexity source_uc) then 2 else 0) +
  3 * list_overlap (tools_used uc) (tools_used source_uc).

(** The similarity lookup for a known source record: every other record
    with its similarity, those above 0 kept, sorted, truncated, the
    scores dropped. *)
Definition similar (db : UseCaseDatabase) (use_case_id : string)
    (source_uc : UseCase) (limit : Z) : list UseCase :=
  let others := filter (λ uc, id uc ≠ use_case_id) (use_cases db) in
  let scored := (λ uc, (uc, similarity source_uc uc)) <$> others in
  let kept := filter (λ p, 0 < p.2) scored in
  fst <$> slice_to (sort_desc snd kept) limit.

(** The sum of the scores that the results [l] give to the id [k]. *)
Definition score_in (k : string) (l : list SearchResult) : Z :=
  foldr (λ r acc, (if bool_decide (id (use_case r) = k)
                   then relevance_score r else 0) + acc) 0 l.

(** The sum, over the phrase searches, of the scores given to [k]. *)
Definition accumulated (self : UseCaseSearcher) (phrases : list string)
    (k : string) : Z :=
  foldr (λ p acc, score_in k (search self p None None 5) + acc) 0 phrases.

(** The challenge contribution in [recommend] as claimed: one bonus of
    4.0 if some challenge occurs in the description, and 2.0 for each
    benefit that contains such a challenge. *)
Definition matching (uc : UseCase) (challenge : string) : bool :=
  str_in (lower challenge) (lower (description uc)).

Definition claimed_challenge_score (uc : UseCase) (challenges : list string) : Z :=
  (if existsb (matching uc) challenges then 8 else 0) +
  4 * count (λ benefit,
               existsb (λ c, matching uc c && str_in (lower c) (lower benefit))
                       challenges)
            (benefits uc).

(** The challenge contribution as the loop computes it: 4.0 for each
    challenge that occurs in the description, and 2.0 for each pair of a
    challenge and a benefit that contains it. *)
Definition challenge_score (uc : UseCase) (challenges : list string) : Z :=
  8 * count (λ c, matching uc c) challenges +
  4 * foldr (λ c acc,
               count (λ benefit, str_in (lower c) (lower benefit)) (benefits uc)
               + acc) 0 challenges.

End Spec.

(** ** Reading the dictionary and the context *)

(** [d.get(k)]: the entry of the key [k], if there is one. *)
Fixpoint dict_get (k : string) (d : list (string * SearchResult))
  : option SearchResult :=
  match d with
  | [] => None
  | (k', r) :: d' => if bool_decide (k' = k) then Some r else dict_get k d'
  end.

(** The score that the dictionary holds for [k]; 0 without an entry. *)
Definition dict_score (k : string) (d : list (string * SearchResult)) : Z :=
  from_option relevance_score 0 (dict_get k d).

(** The results of all phrase searches, one phrase after the other. *)
Definition phrase_results (self : UseCaseSearcher) (phrases : list string)
  : list SearchResult :=
  concat ((λ phrase, search_limit self phrase 5) <$> phrases).

(** The context with the key ['challenges'] removed. *)
Definition without_challenges (user_context : UserContext) : UserContext :=
  {| ctx_tools := ctx_tools user_context;
     ctx_challenges := None;
     ctx_role := ctx_role user_context;
     ctx_experience := ctx_experience user_context |}.

(** ** Sample catalogs *)

(** The first record of the built-in catalog. *)
Definition budget_001 : UseCase := {|
  id := "budget-001";
  title := "Automated Budget Consolidation";
  description := "Use Claude Code to automatically consolidate departmental budgets from multiple Excel files, reconcile submissions, identify inconsistencies, and generate a unified corporate budget.";
  category := BUDGETING;
  subcategories := ["consolidation"; "departmental budgets"];
  complexity := INTERMEDIATE;
  implementation_time := HOURS;
  benefits :=
    ["Reduce budget consolidation time by 80%";
     "Automatic inconsistency detection";
     "Standardized output format";
     "Audit trail of all changes"];
  example_prompts :=
    ["Consolidate all budget files in the /budgets folder, identify any departments with unrealistic assumptions, and create a summary report";
     "Read the departmental budget submissions and flag any that exceed the 5% growth guideline";
     "Create a Python script to merge quarterly budget files and highlight variances over $10,000"];
  tools_used := ["Python"; "openpyxl"; "pandas"; "Excel"];
  source := "Anthropic Financial Services";
  source_url := Some "https://www.anthropic.com/news/advancing-claude-for-financial-services";
  productivity_gain := Some "80% reduction in consolidation time";
  tags := ["automation"; "consolidation"; "excel"; "multi-department"];
|}.

(** The third record of the built-in catalog. *)
Definition budget_003 : UseCase := {|
  id := "budget-003";
  title := "Zero-Based Budget Analysis";
  description := "Implement zero-based budgeting analysis by having Claude Code review every expense line item, question historical allocations, and suggest optimizations based on actual needs.";
  category := BUDGETING;
  subcategories := ["zero-based budgeting"; "cost optimization"];
  complexity := INTERMEDIATE;
  implementation_time := HOURS;
  benefits :=
    ["Identify unnecessary expenses";
     "Data-driven cost reduction";
     "Better resource allocation";
     "Challenge status quo spending"];
  example_prompts :=
    ["Analyze the marketing budget line by line and identify any items that haven't shown ROI in the past 2 years";
     "Review all G&A expenses and flag items that have grown faster than revenue";
     "Create a zero-based budget template for the IT department with justification requirements"];
  tools_used := ["Excel"; "Python"; "pandas"];
  source := "FP&A Trends";
  source_url := Some "https://fpa-trends.com/article/how-agentic-ai-powering-next-generation-fpa";
  productivity_gain := None;
  tags := ["ZBB"; "cost-reduction"; "analysis"];
|}.

Definition two_budgets : UseCaseDatabase :=
  {| use_cases := [budget_001; budget_003] |}.

(** A bare record: an id and a title, every list empty. *)
Definition bare (k t : string) : UseCase := {|
  id := k;
  title := t;
  description := "";
  category := REPORTING;
  subcategories := [];
  complexity := BEGINNER;
  implementation_time := MINUTES;
  benefits := [];
  example_prompts := [];
  tools_used := [];
  source := "";
  source_url := None;
  productivity_gain := None;
  tags := [];
|}.


(** ** use_cases.py: the other accessors *)

(** [[uc for uc in self.use_cases if uc.category == category]] *)
Definition get_by_category (self : UseCaseDatabase) (wanted : FPACategory)
  : list UseCase :=
  filter (λ uc, category uc = wanted) (use_cases self).

(** [[uc for uc in self.use_cases if uc.complexity == complexity]] *)
Definition get_by_complexity (self : UseCaseDatabase) (wanted : ComplexityLevel)
  : list UseCase :=
  filter (λ uc, complexity uc = wanted) (use_cases self).

(** The text that [UseCaseDatabase.search] looks into:
    [f"{uc.title} {uc.description} {' '.join(uc.tags)}".lower()]. *)
Definition searchable (uc : UseCase) : string :=
  lower (title uc +:+ " " +:+ description uc +:+ " " +:+ join " " (tags uc)).

(** The body of the loop of [UseCaseDatabase.search] on one record. *)
Definition database_search_step (query_lower : string)
    (results : list UseCase) (uc : UseCase) : list UseCase :=
  if str_in query_lower (searchable uc) then results ++ [uc] else results.

(** [UseCaseDatabase.search] *)
Definition database_search (self : UseCaseDatabase) (query : string)
  : list UseCase :=
  let query_lower := lower query in
  foldl (database_search_step query_lower) [] (use_cases self).

(** The values of the two enumerations that the catalog is counted by. *)
Definition FPACategory_value (c : FPACategory) : string :=
  match c with
  | BUDGETING => "budgeting"
  | FORECASTING => "forecasting"
  | VARIANCE_ANALYSIS => "variance_analysis"
  | FINANCIAL_MODELING => "financial_modeling"
  | REPORTING => "reporting"
  | DATA_INTEGRATION => "data_integration"
  | SCENARIO_PLANNING => "scenario_planning"
  | COMPLIANCE => "compliance"
  | AUTOMATION => "automation"
  | EXCEL_INTEGRATION => "excel_integration"
  end.

Definition ComplexityLevel_value (c : ComplexityLevel) : string :=
  match c with
  | BEGINNER => "beginner"
  | INTERMEDIATE => "intermediate"
  | ADVANCED => "advanced"
  | EXPERT => "expert"
  end.

(** The members in the order of their definition: [for c in FPACategory]. *)
Definition FPACategory_members : list FPACategory :=
  [BUDGETING; FORECASTING; VARIANCE_ANALYSIS; FINANCIAL_MODELING; REPORTING;
   DATA_INTEGRATION; SCENARIO_PLANNING; COMPLIANCE; AUTOMATION;
   EXCEL_INTEGRATION].

Definition ComplexityLevel_members : list ComplexityLevel :=
  [BEGINNER; INTERMEDIATE; ADVANCED; EXPERT].

(** [FPACategory(value)]: the member with that value; the [ValueError] for
    a string that is no value is [None]. *)
Definition FPACategory_of_value (value : string) : option FPACategory :=
  List.find (λ c, bool_decide (FPACategory_value c = value)) FPACategory_members.

Definition ComplexityLevel_of_value (value : string) : option ComplexityLevel :=
  List.find (λ c, bool_decide (ComplexityLevel_value c = value))
            ComplexityLevel_members.

(** [FPACategory(args.category.lower())] of [_cmd_search], [_cmd_list] and
    [_cmd_report] in main.py. *)
Definition parse_category (arg : string) : option FPACategory :=
  FPACategory_of_value (lower arg).

(** The dictionary returned by [get_statistics]. The list made of the
    set of sources has the order of [elements]. *)
Record Statistics := {
  total_use_cases : Z;
  by_category : gmap string Z;
  by_complexity : gmap string Z;
  sources : list string;
}.

(** [d[k] = d.get(k, 0) + 1] *)
Definition count_up (k : string) (d : gmap string Z) : gmap string Z :=
  <[k := default 0 (d !! k) + 1]> d.

(** The body of the loop of [get_statistics] on one record. *)
Definition get_statistics_step
    (st : gmap string Z * gmap string Z * gset string) (uc : UseCase)
  : gmap string Z * gmap string Z * gset string :=
  let '(by_category, by_complexity, sources) := st in
  (* Count by category *)
  let cat_name := FPACategory_value (category uc) in
  let by_category := count_up cat_name by_category in
  (* Count by complexity *)
  let comp_name := ComplexityLevel_value (complexity uc) in
  let by_complexity := count_up comp_name by_complexity in
  (* Collect sources *)
  let sources := sources ∪ {[ source uc ]} in
  (by_category, by_complexity, sources).

Definition get_statistics (self : UseCaseDatabase) : Statistics :=
  let '(by_category, by_complexity, sources) :=
    foldl get_statistics_step (∅, ∅, ∅) (use_cases self) in
  {| total_use_cases := Z.of_nat (length (use_cases self));
     by_category := by_category;
     by_complexity := by_complexity;
     sources := elements sources |}.

(** ** categories.py: the category table *)

Module CategoryInfo.
Record t := {
  category : FPACategory;
  name : string;
  description : string;
  keywords : list string;
  typical_tools : list string;
}.
End CategoryInfo.

(** [FPACategories.CATEGORIES], in the order of the dictionary. *)
Definition CATEGORIES : list (FPACategory * CategoryInfo.t) :=
  [(BUDGETING,
    {| CategoryInfo.category := BUDGETING;
       CategoryInfo.name := "Budgeting & Planning";
       CategoryInfo.description := "Annual budgets, rolling budgets, departmental budget consolidation";
       CategoryInfo.keywords := ["budget"; "planning"; "allocation"; "cost center"; "departmental"];
       CategoryInfo.typical_tools := ["Excel"; "Python"; "SQL"; "Power Query"] |});
   (FORECASTING,
    {| CategoryInfo.category := FORECASTING;
       CategoryInfo.name := "Financial Forecasting";
       CategoryInfo.description := "Revenue forecasting, expense projections, cash flow predictions";
       CategoryInfo.keywords := ["forecast"; "projection"; "prediction"; "trend"; "time series"];
       CategoryInfo.typical_tools := ["Python"; "R"; "Excel"; "Statistical models"] |});
   (VARIANCE_ANALYSIS,
    {| CategoryInfo.category := VARIANCE_ANALYSIS;
       CategoryInfo.name := "Variance Analysis";
       CategoryInfo.description := "Budget vs actuals, trend analysis, root cause identification";
       CategoryInfo.keywords := ["variance"; "deviation"; "comparison"; "actuals"; "budget vs actual"];
       CategoryInfo.typical_tools := ["Excel"; "Python"; "BI tools"; "SQL"] |});
   (FINANCIAL_MODELING,
    {| CategoryInfo.category := FINANCIAL_MODELING;
       CategoryInfo.name := "Financial Modeling";
       CategoryInfo.description := "DCF models, three-statement models, valuation, M&A analysis";
       CategoryInfo.keywords := ["model"; "DCF"; "valuation"; "three-statement"; "LBO"; "M&A"];
       CategoryInfo.typical_tools := ["Excel"; "Python"; "VBA"] |});
   (REPORTING,
    {| CategoryInfo.category := REPORTING;
       CategoryInfo.name := "Financial Reporting";
       CategoryInfo.description := "Management reports, board presentations, KPI dashboards";
       CategoryInfo.keywords := ["report"; "dashboard"; "KPI"; "presentation"; "visualization"];
       CategoryInfo.typical_tools := ["Excel"; "PowerPoint"; "Power BI"; "Tableau"] |});
   (DATA_INTEGRATION,
    {| CategoryInfo.category := DATA_INTEGRATION;
       CategoryInfo.name := "Data Integration";
       CategoryInfo.description := "ERP integration, data warehouse queries, API connections";
       CategoryInfo.keywords := ["integration"; "ERP"; "API"; "database"; "ETL"; "data warehouse"];
       CategoryInfo.typical_tools := ["Python"; "SQL"; "APIs"; "Snowflake"; "Databricks"] |});
   (SCENARIO_PLANNING,
    {| CategoryInfo.category := SCENARIO_PLANNING;
       CategoryInfo.name := "Scenario Planning";
       CategoryInfo.description := "What-if analysis, sensitivity analysis, Monte Carlo simulations";
       CategoryInfo.keywords := ["scenario"; "sensitivity"; "what-if"; "Monte Carlo"; "simulation"];
       CategoryInfo.typical_tools := ["Excel"; "Python"; "@RISK"; "Crystal Ball"] |});
   (COMPLIANCE,
    {| CategoryInfo.category := COMPLIANCE;
       CategoryInfo.name := "Compliance & Controls";
       CategoryInfo.description := "SOX compliance, audit support, internal controls documentation";
       CategoryInfo.keywords := ["compliance"; "SOX"; "audit"; "controls"; "documentation"];
       CategoryInfo.typical_tools := ["Excel"; "Documentation tools"; "Workflow systems"] |});
   (AUTOMATION,
    {| CategoryInfo.category := AUTOMATION;
       CategoryInfo.name := "Process Automation";
       CategoryInfo.description := "Automated workflows, scheduled reports, data pipelines";
       CategoryInfo.keywords := ["automation"; "workflow"; "pipeline"; "scheduled"; "batch"];
       CategoryInfo.typical_tools := ["Python"; "VBA"; "Power Automate"; "Airflow"] |});
   (EXCEL_INTEGRATION,
    {| CategoryInfo.category := EXCEL_INTEGRATION;
       CategoryInfo.name := "Excel Integration";
       CategoryInfo.description := "Excel automation, formula debugging, template creation";
       CategoryInfo.keywords := ["Excel"; "spreadsheet"; "formula"; "VBA"; "macro"; "template"];
       CategoryInfo.typical_tools := ["Excel"; "VBA"; "Python openpyxl"; "xlwings"] |})].

(** [list(cls.CATEGORIES.values())] *)
Definition get_all_categories : list CategoryInfo.t := snd <$> CATEGORIES.

(** [table.get(k)] on a dictionary written as the list of its items. *)
Definition table_get {V} (table : list (FPACategory * V)) (k : FPACategory)
  : option V :=
  snd <$> List.find (λ kv, bool_decide (kv.1 = k)) table.

(** [cls.CATEGORIES.get(category)] *)
Definition get_category (wanted : FPACategory) : option CategoryInfo.t :=
  table_get CATEGORIES wanted.

(** The loop over the keywords of one category: the first keyword found in
    the text adds the category, unless it is listed, and the [break] ends
    the loop. *)
Fixpoint keywords_loop (c : FPACategory) (keywords : list string)
    (text_lower : string) (matches : list FPACategory) : list FPACategory :=
  match keywords with
  | [] => matches
  | keyword :: rest =>
      if str_in (lower keyword) text_lower
      then if bool_decide (c ∉ matches) then matches ++ [c] else matches
      else keywords_loop c rest text_lower matches
  end.

(** [find_category_by_keywords] over a table of categories. *)
Definition find_in_table (table : list (FPACategory * CategoryInfo.t))
    (text : string) : list FPACategory :=
  let text_lower := lower text in
  foldl (λ matches '(c, info),
           keywords_loop c (CategoryInfo.keywords info) text_lower matches)
        [] table.

Definition find_category_by_keywords (text : string) : list FPACategory :=
  find_in_table CATEGORIES text.

(** [{cat.value: info.name for cat, info in cls.CATEGORIES.items()}] *)
Definition get_category_names : gmap string string :=
  foldl (λ names '(cat, info),
           <[FPACategory_value cat := CategoryInfo.name info]> names)
        ∅ CATEGORIES.

(** ** The rules that the rest of the code follows *)

Module Rules.

(** The characters of a text. *)
Definition chars (s : string) : list ascii := String.list_ascii_of_string s.

(** A user tool is a case-insensitive substring of some tool of the
    record. *)
Definition tool_matches (uc : UseCase) (tool : string) : bool :=
  existsb (λ t, str_in (lower tool) (lower t)) (tools_used uc).

(** Some keyword of the role table occurs in the lowercased role and maps
    to the category of the record. *)
Definition role_matches (uc : UseCase) (role : string) : bool :=
  existsb (λ kc : string * list FPACategory,
             str_in kc.1 (lower role) && bool_decide (category uc ∈ kc.2))
          role_category_map.

(** The context asks for beginner material; without the key the
    experience is "intermediate". *)
Definition wants_beginner (user_context : UserContext) : bool :=
  bool_decide (default "intermediate" (ctx_experience user_context) = "beginner").

Definition easy (uc : UseCase) : bool :=
  bool_decide (complexity uc ∈ [BEGINNER; INTERMEDIATE]).

(** The score of a record in [get_recommended_use_cases]: 3.0 per
    matching user tool, the challenge score, 5.0 for a matching role,
    2.0 for an easy record when beginner material is wanted. *)
Definition recommendation (uc : UseCase) (user_context : UserContext) : Z :=
  6 * Spec.count (λ tool, tool_matches uc tool)
                 (default [] (ctx_tools user_context)) +
  Spec.challenge_score uc (default [] (ctx_challenges user_context)) +
  (if from_option (role_matches uc) false (ctx_role user_context) then 10 else 0) +
  (if wants_beginner user_context && easy uc then 4 else 0).

(** Some keyword of the table entry occurs in the lowercased text. *)
Definition keyword_hit (text : string) (info : CategoryInfo.t) : bool :=
  existsb (λ keyword, str_in (lower keyword) (lower text))
          (CategoryInfo.keywords info).

(** The ids, in catalog order, of the records with a property. *)
Definition ids_where (P : UseCase → Prop) `{!∀ uc, Decision (P uc)}
    (db : UseCaseDatabase) : list string :=
  id <$> filter P (use_cases db).

(** The entry of an index for a key: the list held for it, and the empty
    list for a key the index does not have. *)
Definition entry `{Countable K} (index : gmap K (list string)) (k : K)
  : list string :=
  default [] (index !! k).

(** No key of an index holds the empty list. *)
Definition no_empty_entry `{Countable K} (m : gmap K (list string)) : Prop :=
  ∀ (k : K) (l : list string), m !! k = Some l → l ≠ [].

(** The count held for a key; 0 for a key that is not there. *)
Definition tally (d : gmap string Z) (k : string) : Z := default 0 (d !! k).

End Rules.

(** A context with no key at all. *)
Definition empty_context : UserContext :=
  {| ctx_tools := None; ctx_challenges := None; ctx_role := None;
     ctx_experience := None |}.

Definition empty_database : UseCaseDatabase := {| use_cases := [] |}.

(** ** Slices and the stable sort *)

Section slice.
Context {A : Type}.
Implicit Types l : list A.

Lemma slice_to_take l limit :
  ∃ n, slice_to l limit = take n l.
Proof. unfold slice_to. case_match; eauto. Qed.

Lemma slice_to_prefix l limit : slice_to l limit `prefix_of` l.
Proof. destruct (slice_to_take l limit) as [n ->]. apply prefix_take. Qed.

Lemma slice_to_subseteq l limit : slice_to l limit ⊆ l.
Proof. destruct (slice_to_take l limit) as [n ->]. apply subseteq_take. Qed.

Lemma slice_to_nonneg l limit :
  0 ≤ limit → slice_to l limit = take (Z.to_nat limit) l.
Proof. intros Hl. unfold slice_to. case_match; [done|lia]. Qed.

Lemma length_slice_to l limit :
  0 ≤ limit → Z.of_nat (length (slice_to l limit)) ≤ limit.
Proof.
  intros Hl. rewrite slice_to_nonneg, length_take by done. lia.
Qed.

Lemma slice_to_all l limit :
  Z.of_nat (length l) ≤ limit → slice_to l limit = l.
Proof.
  intros Hl. rewrite slice_to_nonneg by lia. apply take_ge. lia.
Qed.

Lemma prefix_of_sublist l1 l2 : l1 `prefix_of` l2 → l1 `sublist_of` l2.
Proof. intros [k ->]. by apply sublist_inserts_r. Qed.

Lemma slice_to_nil limit : slice_to (@nil A) limit = [].
Proof. destruct (slice_to_take [] limit) as [n ->]. apply take_nil. Qed.
End slice.

Section sort_facts.
Context {A : Type} (key : A → Z).
Implicit Types l : list A.

Lemma insert_desc_perm x l : insert_desc key x l ≡ₚ x :: l.
Proof.
  induction l as [|y l IH]; simpl; [done|].
  case_match; [|done]. rewrite IH. apply Permutation_swap.
Qed.

Lemma sort_desc_perm l : sort_desc key l ≡ₚ l.
Proof.
  induction l as [|x l IH]; simpl; [done|].
  by rewrite insert_desc_perm, IH.
Qed.

Lemma insert_desc_sorted x l :
  StronglySorted (desc key) l → StronglySorted (desc key) (insert_desc key x l).
Proof.
  induction 1 as [|y l Hs IH Hy]; simpl.
  { repeat constructor. }
  destruct (key x <? key y) eqn:Hlt.
  - apply Z.ltb_lt in Hlt. constructor; [done|].
    rewrite insert_desc_perm. constructor; [unfold desc; lia | done].
  - apply Z.ltb_ge in Hlt. constructor; [by constructor|].
    constructor; [done|].
    eapply Forall_impl; [exact Hy|]. unfold desc. intros z Hz. lia.
Qed.

Lemma sort_desc_sorted l : StronglySorted (desc key) (sort_desc key l).
Proof.
  induction l as [|x l IH]; simpl; [constructor|].
  by apply insert_desc_sorted.
Qed.

(** Stability: the elements of any one key come out in the order in
    which they went in. *)
Lemma insert_desc_stable k x l :
  filter (λ y, key y = k) (insert_desc key x l) =
  filter (λ y, key y = k) (x :: l).
Proof.
  induction l as [|y l IH]; simpl; [done|].
  destruct (key x <? key y) eqn:Hlt; [|done].
  apply Z.ltb_lt in Hlt.
  rewrite (filter_cons _ y), IH, !(filter_cons _ x), !(filter_cons _ y).
  repeat case_decide; try done; lia.
Qed.

Lemma sort_desc_stable k l :
  filter (λ y, key y = k) (sort_desc key l) = filter (λ y, key y = k) l.
Proof.
  induction l as [|x l IH]; simpl; [done|].
  rewrite insert_desc_stable, !(filter_cons _ x), IH. done.
Qed.

Lemma sorted_prefix l1 l2 :
  l1 `prefix_of` l2 → StronglySorted (desc key) l2 → StronglySorted (desc key) l1.
Proof. intros [k ->]. apply StronglySorted_app_1_l. Qed.

Lemma filter_prefix (P : A → Prop) `{!∀ x, Decision (P x)} l1 l2 :
  l1 `prefix_of` l2 → filter P l1 `prefix_of` filter P l2.
Proof. intros [k ->]. rewrite filter_app. by apply prefix_app_r. Qed.

Lemma sort_desc_elem_of x l : x ∈ sort_desc key l ↔ x ∈ l.
Proof. by rewrite sort_desc_perm. Qed.

Lemma length_sort_desc l : length (sort_desc key l) = length l.
Proof. by rewrite sort_desc_perm. Qed.
End sort_facts.

Section fmap_facts.
Context {A B : Type} (g : A → B).

Lemma slice_to_fmap (l : list A) limit :
  slice_to (g <$> l) limit = g <$> slice_to l limit.
Proof. unfold slice_to. rewrite length_fmap. case_match; by rewrite fmap_take. Qed.

Lemma insert_desc_fmap (key : B → Z) x (l : list A) :
  insert_desc key (g x) (g <$> l) = g <$> insert_desc (key ∘ g) x l.
Proof.
  induction l as [|y l IH]; [done|].
  csimpl. case_match; [|done]. by rewrite IH.
Qed.

Lemma sort_desc_fmap (key : B → Z) (l : list A) :
  sort_desc key (g <$> l) = g <$> sort_desc (key ∘ g) l.
Proof.
  induction l as [|x l IH]; [done|].
  csimpl. by rewrite IH, insert_desc_fmap.
Qed.

Lemma filter_fmap_comm (P : B → Prop) `{!∀ y, Decision (P y)} (l : list A) :
  filter P (g <$> l) = g <$> filter (P ∘ g) l.
Proof.
  induction l as [|x l IH]; [done|].
  rewrite fmap_cons, !filter_cons, IH. simpl. by case_decide.
Qed.
End fmap_facts.

(** ** The scorer *)

Section scorer.
Implicit Types (uc : UseCase) (query : string) (qk : gset string).

Lemma str_in_empty (hay : string) : str_in "" hay = true.
Proof. by destruct hay. Qed.

Lemma lower_empty : lower "" = "".
Proof. done. Qed.

Lemma overlap_nonneg (a b : gset string) : 0 ≤ overlap a b.
Proof. unfold overlap. lia. Qed.

Lemma count_nonneg {A} (P : A → Prop) `{!∀ x, Decision (P x)} (l : list A) :
  0 ≤ Spec.count P l.
Proof. unfold Spec.count. lia. Qed.

Lemma count_cons {A} (P : A → Prop) `{!∀ x, Decision (P x)} x (l : list A) :
  Spec.count P (x :: l) = (if decide (P x) then 1 else 0) + Spec.count P l.
Proof.
  unfold Spec.count. rewrite filter_cons. case_decide; simpl; lia.
Qed.

Lemma count_all {A} (P : A → Prop) `{!∀ x, Decision (P x)} (l : list A) :
  Forall P l → Spec.count P l = Z.of_nat (length l).
Proof.
  induction 1 as [|x l Hx _ IH]; [done|].
  rewrite count_cons, IH, decide_True by done. simpl length. lia.
Qed.

Lemma append_once_idemp name (m : list string) :
  append_once name (append_once name m) = append_once name m.
Proof.
  unfold append_once at 2 3. case_bool_decide as Hin.
  - unfold append_once. by rewrite bool_decide_true.
  - unfold append_once. rewrite bool_decide_true; [done|].
    apply elem_of_app. right. by apply list_elem_of_singleton.
Qed.

(** The loops over tags and tools: [weight] for every touching entry,
    the field marked once. *)
Lemma each_loop_spec weight name entries query score m :
  each_loop weight name entries query (score, m) =
  (score + weight * Spec.count (Spec.touches query) entries,
   if 0 <? Spec.count (Spec.touches query) entries
   then append_once name m else m).
Proof.
  revert score m.
  induction entries as [|e entries IH]; intros score m.
  { simpl. unfold Spec.count. simpl. f_equal. lia. }
  simpl each_loop. rewrite count_cons.
  pose proof (count_nonneg (Spec.touches query) entries) as Hc.
  fold (Spec.touches query e).
  destruct (Spec.touches query e) eqn:He.
  - rewrite IH, decide_True by done. f_equal; [lia|].
    rewrite append_once_idemp.
    destruct (0 <? Spec.count _ entries) eqn:H1;
      destruct (0 <? 1 + Spec.count _ entries) eqn:H2; try done; lia.
  - rewrite IH, decide_False by (by intros ?). done.
Qed.

(** The loops over prompts and benefits: [weight] once if any entry
    contains the query. *)
Lemma first_loop_spec weight name entries query score m :
  first_loop weight name entries query (score, m) =
  if existsb (Spec.contains query) entries
  then (score + weight, append_once name m) else (score, m).
Proof.
  induction entries as [|e entries IH]; [done|].
  simpl. fold (Spec.contains query e).
  by destruct (Spec.contains query e).
Qed.

Lemma mark_scaled name w c :
  0 < w → Spec.mark name (w * c) = Spec.mark name c.
Proof.
  intros Hw. unfold Spec.mark.
  destruct (0 <? w * c) eqn:H1; destruct (0 <? c) eqn:H2; try done; nia.
Qed.

(** The scorer computes the score and the matched fields of the table. *)
Lemma calculate_relevance_spec uc query qk :
  _calculate_relevance uc query qk =
  (Spec.score uc query qk, Spec.matched uc query qk).
Proof.
  unfold _calculate_relevance.
  pose proof (overlap_nonneg qk (Spec.tokens (lower (title uc)))) as Ht.
  pose proof (overlap_nonneg qk (Spec.tokens (lower (description uc)))) as Hd.
  pose proof (count_nonneg (Spec.touches query) (tags uc)) as Htags.
  pose proof (count_nonneg (Spec.touches query) (tools_used uc)) as Htools.
  unfold Spec.score, Spec.matched, Spec.title_score, Spec.description_score,
    Spec.tags_score, Spec.tools_score, Spec.prompts_score,
    Spec.benefits_score.
  rewrite !mark_scaled by lia.
  fold (Spec.contains query (title uc)).
  fold (Spec.contains query (description uc)).
  fold (Spec.tokens (lower (title uc))).
  fold (Spec.tokens (lower (description uc))).
  set (ot := overlap qk (Spec.tokens (lower (title uc)))) in *.
  set (od := overlap qk (Spec.tokens (lower (description uc)))) in *.
  set (ct := Spec.count (Spec.touches query) (tags uc)) in *.
  set (cu := Spec.count (Spec.touches query) (tools_used uc)) in *.
  destruct (Spec.contains query (title uc));
    [|destruct (0 <? ot) eqn:Hot];
    (destruct (Spec.contains query (description uc));
      [|destruct (0 <? od) eqn:Hod]);
    cbn beta iota zeta;
    rewrite each_loop_spec; fold ct;
    rewrite first_loop_spec;
    destruct (existsb (Spec.contains query) (example_prompts uc));
    rewrite each_loop_spec; fold cu;
    rewrite first_loop_spec;
    destruct (existsb (Spec.contains query) (benefits uc));
    rewrite ?mark_scaled by lia;
    unfold Spec.mark;
    rewrite ?Hot, ?Hod;
    destruct (0 <? ct) eqn:Hct; destruct (0 <? cu) eqn:Hcu;
    (f_equal; first [lia | reflexivity]).
Qed.
End scorer.

(** ** Free-text search *)

Section search_facts.
Implicit Types (self : UseCaseSearcher) (db : UseCaseDatabase).
Implicit Types (uc : UseCase) (query : string) (qk : gset string).
Implicit Types (categories : option (list FPACategory)).
Implicit Types (wanted : option ComplexityLevel) (limit : Z).

(** One round of the loop appends the record's result if the record
    passes the filters with a positive score, and nothing otherwise. *)
Lemma search_step_spec query qk categories wanted results uc :
  search_step query qk categories wanted results uc =
  results ++
    filter (λ r, 0 < relevance_score r)
           (Spec.score_record query qk <$>
              filter (λ uc, Spec.passes categories wanted uc) [uc]).
Proof.
  unfold search_step. rewrite filter_cons, filter_nil. unfold Spec.passes.
  destruct (truthy categories && category_not_in uc categories); simpl.
  { by rewrite app_nil_r. }
  destruct (complexity_differs uc wanted); simpl.
  { by rewrite app_nil_r. }
  rewrite filter_cons, filter_nil. unfold Spec.score_record at 1. simpl.
  destruct (_calculate_relevance uc query qk) as [score matched] eqn:E.
  simpl. destruct (0 <? score) eqn:Hs.
  - apply Z.ltb_lt in Hs. rewrite decide_True by done.
    unfold Spec.score_record. by rewrite E.
  - apply Z.ltb_ge in Hs. rewrite decide_False by lia. by rewrite app_nil_r.
Qed.

Lemma search_loop_spec query qk categories wanted ucs results :
  foldl (search_step query qk categories wanted) results ucs =
  results ++
    filter (λ r, 0 < relevance_score r)
           (Spec.score_record query qk <$>
              filter (λ uc, Spec.passes categories wanted uc) ucs).
Proof.
  revert results. induction ucs as [|uc ucs IH]; intros results; simpl.
  { by rewrite filter_nil, app_nil_r. }
  rewrite IH, search_step_spec, <-app_assoc. f_equal.
  change (uc :: ucs) with ([uc] ++ ucs).
  by rewrite (filter_app _ [uc]), fmap_app, filter_app.
Qed.

(** [search] reads the database of the searcher and nothing else. *)
Lemma search_naive self query categories wanted limit :
  search self query categories wanted limit =
  Spec.naive_search (database self) query categories wanted limit.
Proof.
  unfold search, Spec.naive_search, Spec.candidates, get_all_use_cases.
  by rewrite search_loop_spec.
Qed.

Lemma elem_of_candidates db query categories wanted r :
  r ∈ Spec.candidates db query categories wanted ↔
  0 < relevance_score r ∧
  ∃ uc, uc ∈ use_cases db ∧ Spec.passes categories wanted uc ∧
        r = Spec.score_record (lower query)
              (query_keywords_of (lower query)) uc.
Proof.
  unfold Spec.candidates. rewrite list_elem_of_filter, list_elem_of_fmap.
  split.
  - intros [Hs (uc & -> & [Hp Hin]%list_elem_of_filter)]. eauto 6.
  - intros [Hs (uc & Hin & Hp & ->)]. split; [done|].
    exists uc. split; [done|]. by apply list_elem_of_filter.
Qed.

Lemma search_subseteq self query categories wanted limit :
  search self query categories wanted limit ⊆
  Spec.candidates (database self) query categories wanted.
Proof.
  rewrite search_naive. unfold Spec.naive_search.
  etrans; [apply slice_to_subseteq|].
  intros r. by rewrite sort_desc_elem_of.
Qed.

(** The candidates are listed in catalog order. *)
Lemma candidates_sublist db query categories wanted :
  use_case <$> Spec.candidates db query categories wanted
    `sublist_of` use_cases db.
Proof.
  unfold Spec.candidates.
  induction (use_cases db) as [|uc ucs IH]; [done|].
  rewrite filter_cons. case_decide; [|by apply sublist_cons].
  rewrite fmap_cons, filter_cons.
  case_decide; [by apply sublist_skip | by apply sublist_cons].
Qed.
End search_facts.

Section search_claims.
Implicit Types (self : UseCaseSearcher) (db : UseCaseDatabase).
Implicit Types (uc : UseCase) (query : string) (qk : gset string).
Implicit Types (categories : option (list FPACategory)).
Implicit Types (wanted : option ComplexityLevel) (limit : Z).

Lemma score_nonneg uc query qk :
  0 ≤ Spec.title_score uc query qk ∧ 0 ≤ Spec.description_score uc query qk ∧
  0 ≤ Spec.tags_score uc query ∧ 0 ≤ Spec.prompts_score uc query ∧
  0 ≤ Spec.tools_score uc query ∧ 0 ≤ Spec.benefits_score uc query.
Proof.
  unfold Spec.title_score, Spec.description_score, Spec.tags_score,
    Spec.prompts_score, Spec.tools_score, Spec.benefits_score.
  pose proof (overlap_nonneg qk (Spec.tokens (lower (title uc)))).
  pose proof (overlap_nonneg qk (Spec.tokens (lower (description uc)))).
  pose proof (count_nonneg (Spec.touches query) (tags uc)).
  pose proof (count_nonneg (Spec.touches query) (tools_used uc)).
  repeat split; repeat case_match; lia.
Qed.

Lemma elem_of_search self query categories wanted limit r :
  r ∈ search self query categories wanted limit →
  let q := lower query in
  let qk := query_keywords_of q in
  use_case r ∈ use_cases (database self) ∧
  relevance_score r = Spec.score (use_case r) q qk ∧
  matched_fields r = Spec.matched (use_case r) q qk ∧
  0 < relevance_score r.
Proof.
  intros Hr%search_subseteq%elem_of_candidates.
  destruct Hr as [Hs (uc & Hin & _ & ->)]. simpl in *.
  by rewrite calculate_relevance_spec in *.
Qed.

(** C1. The relevance score of a record for a query is the sum of the
    weight table: title 10.0 for the exact substring, else 3.0 per common
    token; description 5.0, else 1.5 per common token; 4.0 per touching
    tag; 3.0 once for the example prompts; 2.0 per touching tool; 1.5
    once for the benefits.  In title and description the exact bonus and
    the token fallback exclude each other, every search result carries
    this score, and a record that scores 0 is in no search result. *)
Theorem relevance_follows_weight_table uc query :
  let q := lower query in
  let qk := query_keywords_of q in
  (_calculate_relevance uc q qk).1 = Spec.score uc q qk ∧
  (if str_in q (lower (title uc))
   then Spec.title_score uc q qk = 20
   else Spec.title_score uc q qk =
        6 * overlap qk (list_to_set (split (lower (title uc))))) ∧
  (if str_in q (lower (description uc))
   then Spec.description_score uc q qk = 10
   else Spec.description_score uc q qk =
        3 * overlap qk (list_to_set (split (lower (description uc))))) ∧
  (∀ self categories wanted limit r,
     r ∈ search self query categories wanted limit →
     relevance_score r = Spec.score (use_case r) q qk ∧
     0 < relevance_score r) ∧
  (Spec.score uc q qk = 0 →
   ∀ self categories wanted limit,
     uc ∉ use_case <$> search self query categories wanted limit).
Proof.
  intros q qk. split_and!.
  - by rewrite calculate_relevance_spec.
  - unfold Spec.title_score, Spec.contains. by case_match.
  - unfold Spec.description_score, Spec.contains. by case_match.
  - intros self categories wanted limit r Hr.
    by destruct (elem_of_search _ _ _ _ _ _ Hr) as (_ & ? & _ & ?).
  - intros Hz self categories wanted limit
      (r & -> & Hr)%list_elem_of_fmap.
    destruct (elem_of_search _ _ _ _ _ _ Hr) as (_ & Hs & _ & Hpos).
    fold q qk in Hs. lia.
Qed.

Lemma touches_empty entry : Spec.touches "" entry = true.
Proof. unfold Spec.touches. by rewrite str_in_empty, orb_true_r. Qed.

Lemma contains_empty entry : Spec.contains "" entry = true.
Proof. apply str_in_empty. Qed.

Lemma existsb_contains_empty (entries : list string) :
  existsb (Spec.contains "") entries = bool_decide (entries ≠ []).
Proof.
  destruct entries as [|e entries]; [done|].
  simpl. by rewrite contains_empty.
Qed.

Lemma empty_query_score uc qk :
  Spec.score uc "" qk =
  20 + 10 + 8 * Z.of_nat (length (tags uc)) +
  (if bool_decide (example_prompts uc ≠ []) then 6 else 0) +
  4 * Z.of_nat (length (tools_used uc)) +
  (if bool_decide (benefits uc ≠ []) then 3 else 0).
Proof.
  unfold Spec.score, Spec.title_score, Spec.description_score,
    Spec.tags_score, Spec.prompts_score, Spec.tools_score,
    Spec.benefits_score.
  rewrite !contains_empty, !existsb_contains_empty.
  rewrite !count_all; [done|..];
    apply Forall_forall; intros e _; by rewrite touches_empty.
Qed.

(** C2, as the code has it. The empty string is a substring of every
    text: for the empty query every record scores 15.0 (title and
    description) plus 4.0 per tag, 3.0 if it has an example prompt, 2.0
    per tool and 1.5 if it has a benefit, so no record is dropped for its
    score and the result is every record that passes the filters, sorted
    and truncated. *)
Theorem empty_query_matches_everything self categories wanted limit :
  (∀ uc,
     (_calculate_relevance uc (lower "") (query_keywords_of (lower ""))).1 =
     30 + 8 * Z.of_nat (length (tags uc)) +
     (if bool_decide (example_prompts uc ≠ []) then 6 else 0) +
     4 * Z.of_nat (length (tools_used uc)) +
     (if bool_decide (benefits uc ≠ []) then 3 else 0)) ∧
  search self "" categories wanted limit =
  slice_to
    (sort_desc relevance_score
       (Spec.score_record "" (query_keywords_of "") <$>
          filter (λ uc, Spec.passes categories wanted uc)
                 (use_cases (database self))))
    limit.
Proof.
  split.
  - intros uc. rewrite calculate_relevance_spec. simpl fst.
    change (lower "") with "". rewrite empty_query_score. lia.
  - rewrite search_naive. unfold Spec.naive_search, Spec.candidates.
    change (lower "") with "". do 2 f_equal.
    induction (filter _ (use_cases (database self))) as [|uc ucs IH]; [done|].
    rewrite fmap_cons, filter_cons_True, IH; [done|].
    simpl. rewrite calculate_relevance_spec. simpl.
    rewrite empty_query_score. repeat case_match; lia.
Qed.

(** C2, the claim as stated fails: on the catalog of two budget records
    the empty query gives the first record 43.5 and returns both. *)
Lemma empty_query_returns_records :
  (_calculate_relevance budget_001 (lower "") (query_keywords_of (lower ""))).1
    = 87 ∧
  length (search (UseCaseSearcher_init two_budgets) "" None None 10) = 2%nat.
Proof. split; by vm_compute. Qed.

(** C3. For a non-negative limit the results are at most [limit] many,
    sorted by non-increasing score, and the sort is stable: the results
    of any one score are an initial part of the candidates of that score
    in catalog order, and their records follow the catalog order. With
    the default limit there are at most 10. *)
Theorem search_bounded_sorted_stable self query categories wanted limit :
  0 ≤ limit →
  let results := search self query categories wanted limit in
  Z.of_nat (length results) ≤ limit ∧
  StronglySorted (desc relevance_score) results ∧
  (∀ s,
     filter (λ r, relevance_score r = s) results `prefix_of`
     filter (λ r, relevance_score r = s)
            (Spec.candidates (database self) query categories wanted)) ∧
  (∀ s,
     use_case <$> filter (λ r, relevance_score r = s) results
       `sublist_of` use_cases (database self)) ∧
  (length (search_default self query) ≤ 10)%nat.
Proof.
  intros Hlimit results.
  assert (∀ s,
    filter (λ r, relevance_score r = s) results `prefix_of`
    filter (λ r, relevance_score r = s)
           (Spec.candidates (database self) query categories wanted))
    as Hstable.
  { intros s. subst results. rewrite search_naive. unfold Spec.naive_search.
    rewrite <-(sort_desc_stable relevance_score s (Spec.candidates _ _ _ _)).
    apply filter_prefix, slice_to_prefix. }
  subst results. split_and!.
  - rewrite search_naive. by apply length_slice_to.
  - rewrite search_naive.
    eapply sorted_prefix; [apply slice_to_prefix | apply sort_desc_sorted].
  - done.
  - intros s.
    trans (use_case <$> Spec.candidates (database self) query categories wanted);
      [|apply candidates_sublist].
    apply fmap_sublist. etrans; [apply prefix_of_sublist, Hstable|].
    apply sublist_filter.
  - unfold search_default, search_limit. rewrite search_naive.
    pose proof (length_slice_to
      (sort_desc relevance_score
         (Spec.candidates (database self) query None None)) 10).
    unfold Spec.naive_search. lia.
Qed.

(** C3 at a concrete search: two records match, the limit keeps one. *)
Lemma search_bounded_sorted_stable_witness :
  Z.of_nat
    (length (search (UseCaseSearcher_init two_budgets) "budget analysis"
                    None None 1)) ≤ 1.
Proof.
  apply (search_bounded_sorted_stable
           (UseCaseSearcher_init two_budgets) "budget analysis" None None 1).
  lia.
Defined.




(** C9. The result of [search] does not depend on the two indexes: any
    two searchers over the same database agree, and the searcher built by
    the constructor returns what the naive scan of the catalog returns. *)
Theorem search_independent_of_index db
    (ki ki' : gmap string (list string))
    (ci ci' : gmap FPACategory (list string))
    query categories wanted limit :
  search {| database := db; keyword_index := ki; category_index := ci |}
         query categories wanted limit =
  search {| database := db; keyword_index := ki'; category_index := ci' |}
         query categories wanted limit ∧
  search (UseCaseSearcher_init db) query categories wanted limit =
  Spec.naive_search db query categories wanted limit ∧
  search {| database := db; keyword_index := ∅; category_index := ∅ |}
         query categories wanted limit =
  Spec.naive_search db query categories wanted limit ∧
  database (UseCaseSearcher_init db) = db.
Proof.
  split_and!.
  - by rewrite !search_naive.
  - rewrite search_naive. unfold UseCaseSearcher_init.
    by destruct (_build_index db).
  - by rewrite search_naive.
  - unfold UseCaseSearcher_init. by destruct (_build_index db).
Qed.

(** C10. An empty category list filters nothing: the search returns what
    it returns without a category filter. *)
Theorem search_empty_categories self query wanted limit :
  search self query (Some []) wanted limit =
  search self query None wanted limit.
Proof. reflexivity. Qed.
End search_claims.

(** ** Similarity *)

Section similar_facts.
Implicit Types (self : UseCaseSearcher) (db : UseCaseDatabase).
Implicit Types (uc source_uc : UseCase) (use_case_id : string) (limit : Z).

Lemma similar_step_score use_case_id source_uc scores uc :
  similar_step use_case_id source_uc scores uc =
  if bool_decide (id uc = use_case_id) then scores
  else if 0 <? Spec.similarity source_uc uc
       then scores ++ [(uc, Spec.similarity source_uc uc)] else scores.
Proof.
  unfold similar_step, Spec.similarity. cbv zeta.
  case_bool_decide; [done|].
  repeat case_bool_decide;
    match goal with
    | |- (if 0 <? ?a then _ else _) = (if 0 <? ?b then _ else _) =>
        replace a with b by lia
    end; done.
Qed.

Lemma similar_step_spec use_case_id source_uc scores uc :
  similar_step use_case_id source_uc scores uc =
  scores ++
    filter (λ p, 0 < p.2)
           ((λ uc, (uc, Spec.similarity source_uc uc)) <$>
              filter (λ uc, id uc ≠ use_case_id) [uc]).
Proof.
  rewrite similar_step_score, filter_cons, filter_nil.
  case_bool_decide as Hid.
  { rewrite decide_False by (by intros ?). by rewrite app_nil_r. }
  rewrite decide_True by done.
  rewrite fmap_cons, fmap_nil, filter_cons, filter_nil.
  simpl. destruct (0 <? Spec.similarity source_uc uc) eqn:Hs.
  - apply Z.ltb_lt in Hs. by rewrite decide_True.
  - apply Z.ltb_ge in Hs. rewrite decide_False by lia. by rewrite app_nil_r.
Qed.

Lemma similar_loop_spec use_case_id source_uc ucs scores :
  foldl (similar_step use_case_id source_uc) scores ucs =
  scores ++
    filter (λ p, 0 < p.2)
           ((λ uc, (uc, Spec.similarity source_uc uc)) <$>
              filter (λ uc, id uc ≠ use_case_id) ucs).
Proof.
  revert scores. induction ucs as [|uc ucs IH]; intros scores; simpl.
  { by rewrite filter_nil, app_nil_r. }
  rewrite IH, similar_step_spec, <-app_assoc. f_equal.
  change (uc :: ucs) with ([uc] ++ ucs).
  by rewrite (filter_app _ [uc]), fmap_app, filter_app.
Qed.

Lemma get_similar_spec self use_case_id limit :
  get_similar_use_cases self use_case_id limit =
  match get_by_id (database self) use_case_id with
  | None => []
  | Some source_uc => Spec.similar (database self) use_case_id source_uc limit
  end.
Proof.
  unfold get_similar_use_cases, Spec.similar, get_all_use_cases.
  case_match; [|done]. by rewrite similar_loop_spec.
Qed.

Lemma get_by_id_loop_None ucs use_case_id :
  get_by_id_loop ucs use_case_id = None ↔
  ∀ uc, uc ∈ ucs → id uc ≠ use_case_id.
Proof.
  induction ucs as [|uc ucs IH]; simpl.
  { split; [|done]. intros _ uc Hin. by apply elem_of_nil in Hin. }
  case_bool_decide as Hid.
  - split; [done|]. intros H. destruct (H uc); [|done].
    apply elem_of_cons. by left.
  - rewrite IH. split.
    + intros H uc' [->|Hin]%elem_of_cons; [done|by apply H].
    + intros H uc' Hin. apply H, elem_of_cons. by right.
Qed.

Lemma get_by_id_loop_Some ucs use_case_id source_uc :
  get_by_id_loop ucs use_case_id = Some source_uc →
  source_uc ∈ ucs ∧ id source_uc = use_case_id.
Proof.
  induction ucs as [|uc ucs IH]; simpl; [done|].
  case_bool_decide as Hid.
  - intros [= ->]. split; [|done]. apply elem_of_cons. by left.
  - intros [Hin ?]%IH. split; [|done]. apply elem_of_cons. by right.
Qed.

Lemma elem_of_similar db use_case_id source_uc limit uc :
  uc ∈ Spec.similar db use_case_id source_uc limit →
  uc ∈ use_cases db ∧ id uc ≠ use_case_id ∧ 0 < Spec.similarity source_uc uc.
Proof.
  unfold Spec.similar. intros ([uc' s] & -> & Hin)%list_elem_of_fmap.
  apply slice_to_subseteq, sort_desc_elem_of in Hin.
  apply list_elem_of_filter in Hin as [Hpos Hin].
  apply list_elem_of_fmap in Hin as (uc'' & [= -> ->] & Hin).
  apply list_elem_of_filter in Hin as [Hid Hin]. done.
Qed.

(** The lookup ranks the records themselves by their similarity. *)
Lemma similar_ranked db use_case_id source_uc limit :
  Spec.similar db use_case_id source_uc limit =
  slice_to
    (sort_desc (Spec.similarity source_uc)
       (filter (λ uc, 0 < Spec.similarity source_uc uc)
          (filter (λ uc, id uc ≠ use_case_id) (use_cases db))))
    limit.
Proof.
  unfold Spec.similar.
  rewrite (filter_fmap_comm (λ uc, (uc, Spec.similarity source_uc uc))),
    sort_desc_fmap, slice_to_fmap, <-list_fmap_compose.
  apply list_fmap_id.
Qed.

(** C5. The similarity lookup never returns a record with the given id,
    and for an id that no catalog record has it returns the empty
    list. *)
Theorem similar_excludes_source self use_case_id limit :
  (∀ uc, uc ∈ get_similar_use_cases self use_case_id limit →
         id uc ≠ use_case_id) ∧
  ((∀ uc, uc ∈ use_cases (database self) → id uc ≠ use_case_id) →
   get_similar_use_cases self use_case_id limit = []).
Proof.
  rewrite get_similar_spec. split.
  - intros uc. case_match; [|by intros ?%elem_of_nil].
    by intros (_ & ? & _)%elem_of_similar.
  - intros Hnone%get_by_id_loop_None. unfold get_by_id. by rewrite Hnone.
Qed.

(** C6. For a known source id the lookup gives every other record the
    score 5.0 (same category) + 2.0 per common tag + 1.0 (same
    complexity) + 1.5 per common tool, keeps the scores above 0, sorts
    them in descending order, truncates to the limit and returns the
    records: the result is the ranking of the other records by that
    score. *)
Theorem similar_scoring self use_case_id source_uc limit :
  get_by_id (database self) use_case_id = Some source_uc →
  let result := get_similar_use_cases self use_case_id limit in
  result = Spec.similar (database self) use_case_id source_uc limit ∧
  result =
    slice_to
      (sort_desc (Spec.similarity source_uc)
         (filter (λ uc, 0 < Spec.similarity source_uc uc)
            (filter (λ uc, id uc ≠ use_case_id) (use_cases (database self)))))
      limit ∧
  Forall (λ uc, 0 < Spec.similarity source_uc uc) result ∧
  StronglySorted (desc (Spec.similarity source_uc)) result.
Proof.
  intros Hsrc result.
  assert (result = Spec.similar (database self) use_case_id source_uc limit)
    as Hres.
  { subst result. by rewrite get_similar_spec, Hsrc. }
  split_and!; [done| | |].
  - by rewrite Hres, similar_ranked.
  - rewrite Hres. apply Forall_forall.
    by intros uc (_ & _ & ?)%elem_of_similar.
  - rewrite Hres, similar_ranked.
    eapply sorted_prefix; [apply slice_to_prefix | apply sort_desc_sorted].
Qed.

(** C6 at a concrete lookup: the records similar to the first budget
    record in the catalog of two; the other one scores 10.5. *)
Lemma similar_scoring_witness :
  get_similar_use_cases (UseCaseSearcher_init two_budgets) "budget-001" 5 =
  Spec.similar two_budgets "budget-001" budget_001 5.
Proof.
  apply (similar_scoring (UseCaseSearcher_init two_budgets)
           "budget-001" budget_001 5).
  by vm_compute.
Defined.
End similar_facts.

(** ** Recommendation: the challenges *)

Section recommend_facts.
Implicit Types (uc : UseCase) (user_context : UserContext) (score : Z).

(** A loop that adds [w] for every entry with the property adds [w]
    times their number. *)
Lemma foldl_add_count {A} (p : A → bool) (w : Z) (l : list A) score :
  foldl (λ score x, if p x then score + w else score) score l =
  score + w * Spec.count (λ x, p x) l.
Proof.
  revert score. induction l as [|x l IH]; intros score.
  { simpl. unfold Spec.count. simpl. lia. }
  simpl. rewrite IH, count_cons. destruct (p x); simpl; lia.
Qed.

Lemma challenge_step_spec uc score challenge :
  challenge_step uc score challenge =
  score + (if Spec.matching uc challenge then 8 else 0) +
  4 * Spec.count (λ benefit, str_in (lower challenge) (lower benefit))
                 (benefits uc).
Proof.
  unfold challenge_step. cbv zeta.
  rewrite (foldl_add_count (λ benefit, str_in (lower challenge) (lower benefit))).
  unfold Spec.matching. case_match; lia.
Qed.

Lemma challenges_loop_spec uc challenges score :
  foldl (challenge_step uc) score challenges =
  score + Spec.challenge_score uc challenges.
Proof.
  unfold Spec.challenge_score. revert score.
  induction challenges as [|c challenges IH]; intros score.
  { simpl. unfold Spec.count. simpl. lia. }
  simpl. rewrite IH, challenge_step_spec, count_cons.
  destruct (Spec.matching uc c); simpl; lia.
Qed.

(** The blocks after the challenges only add to the score they get. *)
Lemma foldl_additive {A} (f : Z → A → Z) (l : list A) score :
  (∀ score x, f score x = score + f 0 x) →
  foldl f score l = score + foldl f 0 l.
Proof.
  intros Hf. revert score. induction l as [|x l IH]; intros score; simpl.
  { lia. }
  rewrite IH, (IH (f 0 x)), (Hf score x). lia.
Qed.

Lemma role_block_add uc user_context score :
  role_block uc user_context score = score + role_block uc user_context 0.
Proof.
  unfold role_block. case_match; [|lia].
  apply foldl_additive. intros score' [keyword categories].
  case_match; lia.
Qed.

Lemma experience_block_add uc user_context score :
  experience_block uc user_context score =
  score + experience_block uc user_context 0.
Proof. unfold experience_block. repeat case_bool_decide; lia. Qed.

(** C7, as the code has it. With a challenges list in the context, the
    challenges add 4.0 for each challenge that is a case-insensitive
    substring of the description and 2.0 for each pair of a challenge and
    a benefit that contains it; this is the difference between the
    record's score with and without the challenges. *)
Theorem challenge_contribution uc user_context challenges score :
  ctx_challenges user_context = Some challenges →
  challenges_block uc user_context score =
    score + Spec.challenge_score uc challenges ∧
  recommend_score uc user_context =
    recommend_score uc (without_challenges user_context) +
    Spec.challenge_score uc challenges.
Proof.
  intros Hc. split.
  - unfold challenges_block. rewrite Hc. apply challenges_loop_spec.
  - unfold recommend_score, challenges_block. rewrite Hc. cbv zeta.
    rewrite challenges_loop_spec. simpl ctx_challenges. cbv iota.
    rewrite experience_block_add, role_block_add.
    rewrite (experience_block_add _ (without_challenges _)),
      (role_block_add _ (without_challenges _)).
    unfold role_block, experience_block, tools_block. simpl. lia.
Qed.

(** C7 at a concrete context: the challenges "budget" and "excel" on the
    first budget record. *)
Lemma challenge_contribution_witness :
  challenges_block budget_001
    {| ctx_tools := None; ctx_challenges := Some ["budget"; "excel"];
       ctx_role := None; ctx_experience := None |} 0 =
  0 + Spec.challenge_score budget_001 ["budget"; "excel"].
Proof.
  apply (challenge_contribution budget_001
           {| ctx_tools := None; ctx_challenges := Some ["budget"; "excel"];
              ctx_role := None; ctx_experience := None |}
           ["budget"; "excel"] 0).
  reflexivity.
Defined.

(** C7, the claim as stated fails: both challenges occur in the
    description of the first budget record and one benefit contains
    "budget"; the loop adds 4.0 twice and 2.0 once, 10.0, where a single
    bonus gives 6.0. *)
Lemma challenge_bonus_per_challenge :
  challenges_block budget_001
    {| ctx_tools := None; ctx_challenges := Some ["budget"; "excel"];
       ctx_role := None; ctx_experience := None |} 0 = 20 ∧
  Spec.claimed_challenge_score budget_001 ["budget"; "excel"] = 12.
Proof. split; by vm_compute. Qed.
End recommend_facts.

(** ** Phrase aggregation *)

Section merge_facts.
Implicit Types (d : list (string * SearchResult)) (k : string).
Implicit Types (r e : SearchResult) (l : list SearchResult).

Lemma dict_contains_get k d :
  dict_contains k d = bool_decide (is_Some (dict_get k d)).
Proof.
  induction d as [|[k' r] d IH]; simpl; [done|].
  destruct (decide (k' = k)) as [->|Hne].
  - by rewrite !(bool_decide_true (k = k)).
  - by rewrite !(bool_decide_false (k' = k)).
Qed.

Lemma dict_get_snoc k d k' r :
  dict_get k (d ++ [(k', r)]) =
  match dict_get k d with
  | Some e => Some e
  | None => if bool_decide (k' = k) then Some r else None
  end.
Proof.
  induction d as [|[k'' r'] d IH]; simpl; [done|].
  by destruct (bool_decide (k'' = k)).
Qed.

Lemma dict_get_boost k k' s d :
  dict_get k (dict_boost k' s d) =
  if bool_decide (k' = k) then boost s <$> dict_get k d else dict_get k d.
Proof.
  induction d as [|[k'' r'] d IH]; simpl.
  { by case_bool_decide. }
  destruct (decide (k'' = k')) as [->|Hne].
  - rewrite bool_decide_true by done. simpl. clear IH.
    by destruct (bool_decide (k' = k)).
  - rewrite (bool_decide_false (k'' = k')) by done. simpl. rewrite IH.
    clear IH. repeat case_bool_decide; try done; congruence.
Qed.

(** What one merge does to the score held for [k]. *)
Lemma dict_score_merge_step k d r :
  dict_score k (merge_step d r) =
  dict_score k d +
  (if bool_decide (id (use_case r) = k) then relevance_score r else 0).
Proof.
  unfold dict_score, merge_step. cbv zeta. rewrite dict_contains_get.
  case_bool_decide as Hsome; simpl.
  - rewrite dict_get_boost. case_bool_decide as Hk; [|lia].
    subst k. destruct Hsome as [e ->]. simpl. lia.
  - rewrite dict_get_snoc.
    case_bool_decide as Hk.
    + subst k. destruct (dict_get _ d) as [e|] eqn:E.
      * destruct Hsome. by eexists.
      * simpl. lia.
    + destruct (dict_get k d); simpl; lia.
Qed.

Lemma score_in_app k l1 l2 :
  Spec.score_in k (l1 ++ l2) = Spec.score_in k l1 + Spec.score_in k l2.
Proof.
  unfold Spec.score_in. induction l1 as [|r l1 IH]; simpl; [done|].
  rewrite IH. lia.
Qed.

Lemma dict_score_merge k l d :
  dict_score k (foldl merge_step d l) = dict_score k d + Spec.score_in k l.
Proof.
  revert d. induction l as [|r l IH]; intros d; simpl.
  { lia. }
  rewrite IH, dict_score_merge_step. lia.
Qed.

(** The keys: one per id, in the order of first appearance. *)
Lemma dict_boost_keys k s d : (dict_boost k s d).*1 = d.*1.
Proof.
  induction d as [|[k' r] d IH]; [done|].
  simpl dict_boost. case_bool_decide; [done|]. by rewrite !fmap_cons, IH.
Qed.

Lemma dict_get_is_Some k d : is_Some (dict_get k d) ↔ k ∈ d.*1.
Proof.
  induction d as [|[k' r] d IH]; csimpl.
  { split; [by intros [? ?] | by intros ?%elem_of_nil]. }
  rewrite elem_of_cons. destruct (decide (k' = k)) as [->|Hk].
  - rewrite bool_decide_true by done. split; [by left | by eexists].
  - rewrite bool_decide_false, IH by done. split; [by right|].
    by intros [?|?].
Qed.

Lemma merge_step_keys d r :
  (merge_step d r).*1 =
  if bool_decide (id (use_case r) ∈ d.*1) then d.*1
  else d.*1 ++ [id (use_case r)].
Proof.
  unfold merge_step. cbv zeta. rewrite dict_contains_get.
  case_bool_decide as Hsome; simpl.
  - rewrite dict_boost_keys, bool_decide_true; [done|].
    by apply dict_get_is_Some.
  - rewrite fmap_app, bool_decide_false; [done|].
    by rewrite <-dict_get_is_Some.
Qed.

Lemma merge_keys_NoDup l d : NoDup d.*1 → NoDup (foldl merge_step d l).*1.
Proof.
  revert d. induction l as [|r l IH]; intros d Hd; simpl; [done|].
  apply IH. rewrite merge_step_keys. case_bool_decide as Hin; [done|].
  apply NoDup_app. split_and!; [done| |apply NoDup_singleton].
  intros k Hk ->%list_elem_of_singleton. done.
Qed.

Lemma merge_keys_elem_of k l d :
  k ∈ (foldl merge_step d l).*1 ↔ k ∈ d.*1 ∨ k ∈ (id ∘ use_case) <$> l.
Proof.
  revert d. induction l as [|r l IH]; intros d; simpl.
  { rewrite elem_of_nil. tauto. }
  rewrite IH, merge_step_keys, elem_of_cons.
  case_bool_decide as Hin.
  - split; [tauto|]. intros [?|[->|?]]; auto.
  - rewrite elem_of_app, list_elem_of_singleton. tauto.
Qed.

(** Every entry is filed under the id of its record, and its record is a
    record of the merged results. *)
Lemma merge_step_entries d r k e :
  (k, e) ∈ merge_step d r →
  (∃ e', (k, e') ∈ d ∧ use_case e = use_case e' ∧
         matched_fields e = matched_fields e') ∨
  (k = id (use_case r) ∧ e = r).
Proof.
  unfold merge_step. cbv zeta. case_match.
  - intros [Hin|Hin%list_elem_of_singleton]%elem_of_app;
      [|right; by simplify_eq].
    left. by exists e.
  - clear. induction d as [|[k' r'] d IH]; simpl.
    { by intros ?%elem_of_nil. }
    case_bool_decide as Hk.
    + intros [[= -> ->]|Hin]%elem_of_cons.
      * left. exists r'. split_and!; [|done..]. apply elem_of_cons. by left.
      * left. exists e. split_and!; [|done..]. apply elem_of_cons. by right.
    + intros [[= -> ->]|Hin]%elem_of_cons.
      * left. exists r'. split_and!; [|done..]. apply elem_of_cons. by left.
      * destruct (IH Hin) as [(e' & ? & ? & ?)|[-> ->]].
        -- left. exists e'. split_and!; [|done..]. apply elem_of_cons. by right.
        -- by right.
Qed.

Lemma merge_entries l d k e :
  (k, e) ∈ foldl merge_step d l →
  (∃ e', (k, e') ∈ d ∧ use_case e = use_case e' ∧
         matched_fields e = matched_fields e') ∨
  (∃ r, r ∈ l ∧ k = id (use_case r) ∧ use_case e = use_case r ∧
        matched_fields e = matched_fields r).
Proof.
  revert d. induction l as [|r l IH]; intros d; simpl.
  { intros Hin. left. by exists e. }
  intros [(e' & Hin & Hu & Hm)|(r' & Hr' & ? & ? & ?)]%IH.
  - apply merge_step_entries in Hin as [(e'' & ? & ? & ?)|[-> ->]].
    + left. exists e''. split_and!; [done|congruence..].
    + right. exists r. split_and!; [apply elem_of_cons; by left|done..].
  - right. exists r'. split_and!; [apply elem_of_cons; by right|done..].
Qed.

Lemma dict_get_NoDup k e d : NoDup d.*1 → (k, e) ∈ d → dict_get k d = Some e.
Proof.
  induction d as [|[k' r] d IH]; csimpl.
  { by intros _ ?%elem_of_nil. }
  intros [Hk Hd]%NoDup_cons [[= -> ->]|Hin]%elem_of_cons.
  - by rewrite bool_decide_true.
  - rewrite bool_decide_false; [by apply IH|].
    intros ->. apply Hk. apply list_elem_of_fmap. by exists (k, e).
Qed.

(** The loop over the phrases is one merge of all their results. *)
Lemma combine_phrase_results self phrases :
  combine self phrases = foldl merge_step [] (phrase_results self phrases).
Proof.
  unfold combine, phrase_results. generalize (@nil (string * SearchResult)).
  induction phrases as [|p phrases IH]; intros d; simpl; [done|].
  by rewrite IH, foldl_app.
Qed.

Lemma score_in_phrase_results self phrases k :
  Spec.score_in k (phrase_results self phrases) =
  Spec.accumulated self phrases k.
Proof.
  unfold phrase_results, Spec.accumulated.
  induction phrases as [|p phrases IH]; [done|].
  csimpl. by rewrite score_in_app, IH.
Qed.
End merge_facts.

Section prompt_claims.
Implicit Types (self : UseCaseSearcher) (text : string).

Lemma elem_of_phrase_results self phrases p r :
  p ∈ phrases → r ∈ search_limit self p 5 → r ∈ phrase_results self phrases.
Proof.
  unfold phrase_results. induction phrases as [|q phrases IH]; csimpl.
  { by intros ?%elem_of_nil. }
  intros [->|Hp]%elem_of_cons Hr; apply elem_of_app; [by left|].
  right. by apply IH.
Qed.

Lemma phrase_results_inv self phrases r :
  r ∈ phrase_results self phrases →
  ∃ p, p ∈ phrases ∧ r ∈ search_limit self p 5.
Proof.
  unfold phrase_results. induction phrases as [|q phrases IH]; csimpl.
  { by intros ?%elem_of_nil. }
  intros [Hr|Hr]%elem_of_app.
  - exists q. split; [apply elem_of_cons; by left | done].
  - destruct (IH Hr) as (p & Hp & Hr'). exists p.
    split; [apply elem_of_cons; by right | done].
Qed.

(** The entries of the dictionary after the loop over the phrases. *)
Lemma combine_entry self phrases k e :
  (k, e) ∈ combine self phrases →
  k = id (use_case e) ∧
  relevance_score e = Spec.accumulated self phrases k ∧
  ∃ p r, p ∈ phrases ∧ r ∈ search_limit self p 5 ∧
         use_case e = use_case r ∧ matched_fields e = matched_fields r.
Proof.
  intros Hin.
  assert (NoDup (combine self phrases).*1) as Hnd.
  { rewrite combine_phrase_results. apply merge_keys_NoDup. constructor. }
  pose proof (dict_get_NoDup _ _ _ Hnd Hin) as Hget.
  pose proof (dict_score_merge k (phrase_results self phrases) []) as Hsc.
  rewrite <-combine_phrase_results in Hsc.
  unfold dict_score in Hsc at 1. rewrite Hget in Hsc. simpl in Hsc.
  rewrite score_in_phrase_results in Hsc.
  rewrite combine_phrase_results in Hin.
  apply merge_entries in Hin as [(e' & []%elem_of_nil & _)|(r & Hr & -> & Hu & Hm)].
  split_and!; [by rewrite Hu | by rewrite Hsc |].
  apply phrase_results_inv in Hr as (p & Hp & Hr). by exists p, r.
Qed.

Lemma combine_ids self phrases :
  (id ∘ use_case) <$> (snd <$> combine self phrases) =
  (combine self phrases).*1.
Proof.
  rewrite <-list_fmap_compose. apply list_fmap_ext.
  intros i [k e] Hi. simpl.
  apply list_elem_of_lookup_2, combine_entry in Hi as [-> _]. done.
Qed.

Lemma found_phrases_nil text :
  Forall (λ p, str_in p (lower text) = false) key_phrases →
  found_phrases_of text = [].
Proof.
  unfold found_phrases_of. cbv zeta. generalize key_phrases.
  induction 1 as [|p phrases Hp _ IH]; [done|].
  rewrite filter_cons_False; [done|]. rewrite Hp. intros [].
Qed.

Lemma found_phrases_cons text :
  Exists (λ p, str_in p (lower text) = true) key_phrases →
  ∃ p phrases, found_phrases_of text = p :: phrases.
Proof.
  intros (p & Hin & Hp)%Exists_exists.
  assert (p ∈ found_phrases_of text) as Hfound.
  { apply list_elem_of_filter. split; [by rewrite Hp | done]. }
  destruct (found_phrases_of text) as [|q phrases]; [|by eauto].
  by apply elem_of_nil in Hfound.
Qed.

Lemma catalog_id_inj (ucs : list UseCase) (x y : UseCase) :
  NoDup (id <$> ucs) → x ∈ ucs → y ∈ ucs → id x = id y → x = y.
Proof.
  induction ucs as [|uc ucs IH]; csimpl.
  { by intros _ ?%elem_of_nil. }
  intros [Hnew Hnd]%NoDup_cons [->|Hx]%elem_of_cons [->|Hy]%elem_of_cons Hid.
  - done.
  - destruct Hnew. rewrite Hid. by apply list_elem_of_fmap_2.
  - destruct Hnew. rewrite <-Hid. by apply list_elem_of_fmap_2.
  - by apply IH.
Qed.

(** C4. Without a key phrase in the text, [search_by_prompt] is the
    plain search of the whole text.  With one, the merged list holds one
    entry per id of the per-phrase results (limit 5 each); every record of
    those results has its entry there (the same record when the ids of the
    catalog are unique), with the exact sum of its scores over the phrase
    searches in which it appears; and the answer is that list sorted by
    descending accumulated score and cut to 10 entries. *)
Theorem search_by_prompt_accumulates self text :
  let found := filter (λ p, str_in p (lower text)) key_phrases in
  let merged := snd <$> combine self found in
  (Forall (λ p, str_in p (lower text) = false) key_phrases →
   search_by_prompt self text = search self text None None 10) ∧
  (Exists (λ p, str_in p (lower text) = true) key_phrases →
   search_by_prompt self text =
     slice_to (sort_desc relevance_score merged) 10 ∧
   NoDup ((id ∘ use_case) <$> merged) ∧
   (∀ p r, p ∈ found → r ∈ search self p None None 5 →
      ∃ e, e ∈ merged ∧ id (use_case e) = id (use_case r) ∧
           (NoDup (id <$> use_cases (database self)) →
            use_case e = use_case r) ∧
           relevance_score e =
             Spec.accumulated self found (id (use_case r))) ∧
   (∀ e, e ∈ merged →
      relevance_score e = Spec.accumulated self found (id (use_case e)) ∧
      ∃ p r, p ∈ found ∧ r ∈ search self p None None 5 ∧
             use_case e = use_case r) ∧
   (∀ e, e ∈ search_by_prompt self text →
      relevance_score e = Spec.accumulated self found (id (use_case e)))) ∧
  StronglySorted (desc relevance_score) (search_by_prompt self text) ∧
  (length (search_by_prompt self text) ≤ 10)%nat.
Proof.
  intros found merged.
  assert (∀ e, e ∈ merged →
    relevance_score e = Spec.accumulated self found (id (use_case e)) ∧
    ∃ p r, p ∈ found ∧ r ∈ search self p None None 5 ∧
           use_case e = use_case r) as Hentries.
  { intros e ([k e'] & -> & Hin)%list_elem_of_fmap. simpl.
    apply combine_entry in Hin as (-> & Hs & p & r & Hp & Hr & Hu & _).
    split; [done|]. by exists p, r. }
  split_and!.
  - intros Hnone. unfold search_by_prompt.
    by rewrite (found_phrases_nil _ Hnone).
  - intros Hsome.
    assert (search_by_prompt self text =
            slice_to (sort_desc relevance_score merged) 10) as Hres.
    { unfold search_by_prompt.
      destruct (found_phrases_cons _ Hsome) as (p & phrases & Hfound).
      subst merged found. fold (found_phrases_of text).
      by rewrite Hfound. }
    split_and!; [done| | |done|].
    + subst merged. rewrite combine_ids, combine_phrase_results.
      apply merge_keys_NoDup. constructor.
    + intros p r Hp Hr.
      assert (id (use_case r) ∈ (combine self found).*1) as Hkey.
      { rewrite combine_phrase_results. apply merge_keys_elem_of. right.
        apply (list_elem_of_fmap_2 (id ∘ use_case)).
        by apply (elem_of_phrase_results _ _ p). }
      apply list_elem_of_fmap in Hkey as ([k e] & Hk & Hin). simpl in Hk.
      subst k.
      pose proof (combine_entry _ _ _ _ Hin)
        as (Hid & Hs & p' & r' & _ & Hr' & Hu & _).
      exists e. split_and!; [|done| |done].
      * apply list_elem_of_fmap. by exists (id (use_case r), e).
      * intros Hnd. rewrite Hu. rewrite Hu in Hid.
        apply elem_of_search in Hr as [Hc _].
        apply elem_of_search in Hr' as [Hc' _].
        by apply (catalog_id_inj (use_cases (database self))).
    + intros e He. apply Hentries. rewrite Hres in He.
      by apply slice_to_subseteq, sort_desc_elem_of in He.
  - unfold search_by_prompt. case_match.
    + unfold search_default, search_limit. rewrite search_naive.
      eapply sorted_prefix; [apply slice_to_prefix | apply sort_desc_sorted].
    + eapply sorted_prefix; [apply slice_to_prefix | apply sort_desc_sorted].
  - unfold search_by_prompt. case_match.
    + unfold search_default, search_limit. rewrite search_naive.
      unfold Spec.naive_search.
      match goal with |- (length (slice_to ?l 10) ≤ _)%nat =>
        pose proof (length_slice_to l 10) end. lia.
    + match goal with |- (length (slice_to ?l 10) ≤ _)%nat =>
        pose proof (length_slice_to l 10) end. lia.
Qed.

(** C4 at a concrete text: "budget" and "automate" are found; the first
    budget record scores 19.5 for one and 10.0 for the other, 29.5 in
    all, the third scores 18.0 for "budget" alone. *)
Lemma search_by_prompt_accumulates_witness :
  search_by_prompt (UseCaseSearcher_init two_budgets)
    "how to automate budget consolidation" =
  slice_to
    (sort_desc relevance_score
       (snd <$> combine (UseCaseSearcher_init two_budgets)
                  (filter (λ p, str_in p (lower "how to automate budget consolidation"))
                          key_phrases)))
    10.
Proof.
  apply (search_by_prompt_accumulates (UseCaseSearcher_init two_budgets)
           "how to automate budget consolidation").
  apply Exists_cons_hd. by vm_compute.
Defined.
End prompt_claims.

(** ** The embedding on concrete inputs *)

Example split_runs : split "budget  consolidation	time " = ["budget"; "consolidation"; "time"].
Proof. reflexivity. Qed.

Example slice_examples :
  slice_to [1; 2; 3; 4] 2 = [1; 2] ∧ slice_to [1; 2; 3; 4] (-1) = [1; 2; 3] ∧
  slice_to [1; 2; 3; 4] (-7) = [] ∧ slice_to [1; 2; 3; 4] 9 = [1; 2; 3; 4].
Proof. by vm_compute. Qed.

Example sort_desc_keeps_ties :
  sort_desc fst [(1, "a"); (3, "b"); (1, "c"); (3, "d"); (2, "e")] =
  [(3, "b"); (3, "d"); (2, "e"); (1, "a"); (1, "c")].
Proof. by vm_compute. Qed.

(** "budget consolidation" on the first budget record: 10.0 for the title,
    4.0 for the tag "consolidation", 1.5 for the first benefit. *)
Example relevance_budget_consolidation :
  _calculate_relevance budget_001 "budget consolidation"
    (query_keywords_of "budget consolidation") =
  (31, ["title"; "tags"; "benefits"]).
Proof. by vm_compute. Qed.

Example search_budget_analysis :
  (λ r, (id (use_case r), relevance_score r, matched_fields r)) <$>
    search (UseCaseSearcher_init two_budgets) "Budget Analysis" None None 10 =
  [("budget-003", 31, ["title"; "description"; "tags"]);
   ("budget-001", 6, ["title"])].
Proof. by vm_compute. Qed.

Example search_by_prompt_two_phrases :
  (λ r, (id (use_case r), relevance_score r)) <$>
    search_by_prompt (UseCaseSearcher_init two_budgets)
      "how to automate budget consolidation" =
  [("budget-001", 59); ("budget-003", 36)].
Proof. by vm_compute. Qed.

Example similar_to_budget_001 :
  Spec.similarity budget_001 budget_003 = 21 ∧
  id <$> get_similar_use_cases (UseCaseSearcher_init two_budgets) "budget-001" 5
    = ["budget-003"] ∧
  get_similar_use_cases (UseCaseSearcher_init two_budgets) "budget-999" 5 = [].
Proof. by vm_compute. Qed.

Example recommend_score_budget_manager :
  recommend_score budget_001
    {| ctx_tools := Some ["excel"; "sap"];
       ctx_challenges := Some ["budget"; "excel"];
       ctx_role := Some "Budget manager";
       ctx_experience := Some "beginner" |} = 40.
Proof. by vm_compute. Qed.

(** A category list that is not empty does filter; the empty one does
    not. *)
Example search_category_filter :
  search (UseCaseSearcher_init two_budgets) "budget" (Some [FORECASTING]) None 10
    = [] ∧
  id ∘ use_case <$>
    search (UseCaseSearcher_init two_budgets) "budget" (Some []) None 10
    = ["budget-001"; "budget-003"] ∧
  id ∘ use_case <$>
    search (UseCaseSearcher_init two_budgets) "budget" None (Some ADVANCED) 10
    = [].
Proof. by vm_compute. Qed.

Example index_of_two_budgets :
  keyword_index (UseCaseSearcher_init two_budgets) !! "budget" =
    Some ["budget-001"; "budget-003"] ∧
  category_index (UseCaseSearcher_init two_budgets) !! BUDGETING =
    Some ["budget-001"; "budget-003"].
Proof. by vm_compute. Qed.


(** ** Facts about the string primitives *)

Section string_facts.
Implicit Types (s t p : string) (c : ascii).

Lemma append_nil_l s : "" +:+ s = s.
Proof. reflexivity. Qed.

Lemma append_cons c s t : String c s +:+ t = String c (s +:+ t).
Proof. reflexivity. Qed.

Lemma append_nil_r s : s +:+ "" = s.
Proof. induction s as [|c s IH]; [done|]. by rewrite append_cons, IH. Qed.

Lemma append_assoc s t p : (s +:+ t) +:+ p = s +:+ t +:+ p.
Proof. induction s as [|c s IH]; [done|]. by rewrite !append_cons, IH. Qed.

Lemma lower_char_idemp c : lower_char (lower_char c) = lower_char c.
Proof. by destruct c as [[] [] [] [] [] [] [] []]. Qed.

Lemma lower_idemp s : lower (lower s) = lower s.
Proof.
  induction s as [|c s IH]; [done|]. simpl. by rewrite lower_char_idemp, IH.
Qed.

Lemma lower_app s t : lower (s +:+ t) = lower s +:+ lower t.
Proof.
  induction s as [|c s IH]; [done|]. rewrite append_cons. simpl.
  by rewrite IH, append_cons.
Qed.

Lemma startswith_spec p s : startswith p s = true ↔ ∃ t, s = p +:+ t.
Proof.
  revert s. induction p as [|a p IH]; intros s; simpl.
  { split; [by exists s | done]. }
  destruct s as [|b s].
  { split; [done | by intros [t ?]]. }
  rewrite andb_true_iff, bool_decide_eq_true, IH. split.
  - intros [-> [t ->]]. by exists t.
  - intros [t Ht]. rewrite append_cons in Ht. injection Ht as -> ->. eauto.
Qed.

(** [needle in hay] holds exactly when [hay] is some text, the needle,
    some text. *)
Lemma str_in_spec p s : str_in p s = true ↔ ∃ pre post, s = pre +:+ p +:+ post.
Proof.
  induction s as [|b s IH].
  - simpl. rewrite orb_false_r, startswith_spec. split.
    + intros [t Ht]. by exists "", t.
    + intros (pre & post & H). destruct pre; [by exists post|done].
  - simpl. rewrite orb_true_iff, startswith_spec, IH. split.
    + intros [[t Ht]|(pre & post & Hs)].
      * by exists "", t.
      * exists (String b pre), post. by rewrite append_cons, Hs.
    + intros (pre & post & H). destruct pre as [|a pre].
      * left. by exists post.
      * right. rewrite append_cons in H. injection H as -> ->. eauto.
Qed.

Lemma str_in_refl s : str_in s s = true.
Proof. apply str_in_spec. exists "", "". by rewrite append_nil_r. Qed.

Lemma str_in_app_l p s t : str_in p s = true → str_in p (s +:+ t) = true.
Proof.
  rewrite !str_in_spec. intros (pre & post & ->).
  exists pre, (post +:+ t). by rewrite !append_assoc.
Qed.

Lemma str_in_app_r p s t : str_in p t = true → str_in p (s +:+ t) = true.
Proof.
  rewrite !str_in_spec. intros (pre & post & ->).
  exists (s +:+ pre), post. by rewrite !append_assoc.
Qed.

Lemma str_in_join p sep entry (entries : list string) :
  entry ∈ entries → str_in p entry = true → str_in p (join sep entries) = true.
Proof.
  intros Hin Hp. induction entries as [|e entries IH].
  { by apply elem_of_nil in Hin. }
  apply elem_of_cons in Hin as [->|Hin].
  - destruct entries; [done|]. by apply str_in_app_l.
  - destruct entries as [|e' entries].
    { by apply elem_of_nil in Hin. }
    change (join sep (e :: e' :: entries))
      with (e +:+ sep +:+ join sep (e' :: entries)).
    by apply str_in_app_r, str_in_app_r, IH.
Qed.

Lemma lower_join sep (entries : list string) :
  lower (join sep entries) = join (lower sep) (lower <$> entries).
Proof.
  induction entries as [|e entries IH]; [done|].
  destruct entries as [|e' entries]; [done|].
  change (join sep (e :: e' :: entries))
    with (e +:+ sep +:+ join sep (e' :: entries)).
  rewrite !lower_app, IH. done.
Qed.

Lemma chars_app s t : Rules.chars (s +:+ t) = Rules.chars s ++ Rules.chars t.
Proof.
  unfold Rules.chars. induction s as [|c s IH]; [done|].
  rewrite append_cons. simpl. by rewrite IH.
Qed.

Lemma chars_lower s : Forall (λ c, lower_char c = c) (Rules.chars (lower s)).
Proof.
  unfold Rules.chars. induction s as [|c s IH]; simpl; constructor; [|done].
  apply lower_char_idemp.
Qed.

Lemma lower_fixed s : Forall (λ c, lower_char c = c) (Rules.chars s) → lower s = s.
Proof.
  unfold Rules.chars. induction s as [|c s IH]; [done|]. simpl.
  intros [Hc Hs]%Forall_cons. by rewrite Hc, IH.
Qed.

Lemma chars_replace old new s (P : ascii → Prop) :
  P new → Forall P (Rules.chars s) →
  Forall (λ c, P c ∧ (c = old → new = old)) (Rules.chars (replace old new s)).
Proof.
  unfold Rules.chars. intros Hnew. induction s as [|c s IH]; simpl; [done|].
  intros [Hc Hs]%Forall_cons. constructor; [|by apply IH].
  case_bool_decide; [done|]. split; [done|]. by intros ?.
Qed.

Lemma flush_tokens (P : ascii → Prop) cur :
  Forall (λ c, isspace c = false ∧ P c) (Rules.chars cur) →
  Forall (λ t, t ≠ "" ∧ Forall (λ c, isspace c = false ∧ P c) (Rules.chars t))
         (flush cur).
Proof.
  intros H. destruct cur as [|a cur]; simpl; [constructor|].
  constructor; [|constructor]. split; [done | exact H].
Qed.

(** The tokens of [split]: none is empty, none holds a white space
    character, and a property of the characters that are no white space is
    a property of the characters of every token. *)
Lemma split_go_tokens (P : ascii → Prop) cur s :
  Forall (λ c, isspace c = false ∧ P c) (Rules.chars cur) →
  Forall (λ c, isspace c = false → P c) (Rules.chars s) →
  Forall (λ t, t ≠ "" ∧ Forall (λ c, isspace c = false ∧ P c) (Rules.chars t))
         (split_go cur s).
Proof.
  revert cur. induction s as [|c s IH]; intros cur Hcur Hs.
  - simpl. by apply flush_tokens.
  - apply Forall_cons in Hs as [Hc Hs]. simpl.
    destruct (isspace c) eqn:Hsp.
    + apply Forall_app. split; [by apply flush_tokens|].
      apply IH; [constructor | done].
    + apply IH; [|done]. rewrite chars_app. apply Forall_app. split; [done|].
      repeat constructor; [done | by apply Hc].
Qed.

Lemma split_tokens (P : ascii → Prop) s :
  Forall (λ c, isspace c = false → P c) (Rules.chars s) →
  Forall (λ t, t ≠ "" ∧ Forall (λ c, isspace c = false ∧ P c) (Rules.chars t))
         (split s).
Proof. apply split_go_tokens. constructor. Qed.
End string_facts.

(** ** The index *)

Section index_facts.
Implicit Types (uc : UseCase) (db : UseCaseDatabase) (k : string).

Lemma elem_of_extract_keywords uc k :
  k ∈ _extract_keywords uc ↔
  (2 < len k ∧ k ∉ stopwords) ∧
  k ∈ split (replace "." " " (replace "," " "
        (lower (title uc +:+ " " +:+ description uc +:+ " " +:+
                join " " (tags uc))))).
Proof.
  unfold _extract_keywords. cbv zeta.
  by rewrite elem_of_elements, elem_of_list_to_set, list_elem_of_filter.
Qed.

Lemma extract_keywords_NoDup uc : NoDup (_extract_keywords uc).
Proof. unfold _extract_keywords. apply NoDup_elements. Qed.

(** X13. The keywords of a record are distinct, longer than two characters,
    no stop words, in lower case, and free of white space, commas and
    periods. *)
Theorem extract_keywords_clean uc :
  NoDup (_extract_keywords uc) ∧
  ∀ k, k ∈ _extract_keywords uc →
    2 < len k ∧ (k ∉ stopwords) ∧ lower k = k ∧
    Forall (λ c, isspace c = false ∧ c ≠ ","%char ∧ c ≠ "."%char)
           (Rules.chars k).
Proof.
  split; [apply extract_keywords_NoDup|].
  intros k [[Hlen Hstop] Hk]%elem_of_extract_keywords.
  set (text := lower _) in Hk.
  pose proof (chars_replace "," " " text (λ c, lower_char c = c)
                eq_refl (chars_lower _)) as H1.
  pose proof (chars_replace "." " " _ _ (conj eq_refl (λ H, H)) H1) as H2.
  simpl in H2.
  assert (Forall (λ t, t ≠ "" ∧
            Forall (λ c, isspace c = false ∧
                         lower_char c = c ∧ c ≠ ","%char ∧ c ≠ "."%char)
                   (Rules.chars t))
            (split (replace "." " " (replace "," " " text)))) as Htok.
  { apply split_tokens. eapply Forall_impl; [exact H2|]. simpl.
    intros c [[Hl Hcomma] Hdot] _. split_and!; [done| |].
    - intros ->. by specialize (Hcomma eq_refl).
    - intros ->. by specialize (Hdot eq_refl). }
  rewrite Forall_forall in Htok. destruct (Htok k Hk) as [_ Hchars].
  split_and!; [done|done| |].
  - apply lower_fixed. eapply Forall_impl; [exact Hchars|]. by intros c (_ & ? & _).
  - eapply Forall_impl; [exact Hchars|]. by intros c (? & _ & ? & ?).
Qed.

Lemma entry_index_append `{Countable K} (k k' : K) (v : string)
    (m : gmap K (list string)) :
  Rules.entry (index_append k v m) k' =
  Rules.entry m k' ++ (if bool_decide (k = k') then [v] else []).
Proof.
  unfold Rules.entry, index_append. destruct (decide (k = k')) as [->|Hne].
  - by rewrite lookup_insert_eq, bool_decide_true.
  - by rewrite lookup_insert_ne, bool_decide_false, app_nil_r.
Qed.

Lemma index_append_no_empty `{Countable K} (k : K) (v : string)
    (m : gmap K (list string)) :
  Rules.no_empty_entry m → Rules.no_empty_entry (index_append k v m).
Proof.
  unfold Rules.no_empty_entry, index_append. intros Hm k' l.
  destruct (decide (k = k')) as [->|Hne].
  - rewrite lookup_insert_eq. intros [= <-]. by destruct (default [] _).
  - rewrite lookup_insert_ne by done. apply Hm.
Qed.

Lemma no_empty_entry_None `{Countable K} (m : gmap K (list string)) (k : K) :
  Rules.no_empty_entry m → m !! k = None ↔ Rules.entry m k = [].
Proof.
  unfold Rules.entry. intros Hm. destruct (m !! k) as [l|] eqn:E; simpl.
  - split; [done|]. intros ->. by destruct (Hm k [] E).
  - done.
Qed.

Lemma keywords_fold_entry (v : string) (ks : list string)
    (m : gmap string (list string)) k :
  NoDup ks →
  Rules.entry (foldl (λ index keyword, index_append keyword v index) m ks) k =
  Rules.entry m k ++ (if bool_decide (k ∈ ks) then [v] else []).
Proof.
  intros Hnd. revert m. induction Hnd as [|k' ks Hk' Hnd IH]; intros m; simpl.
  { by rewrite app_nil_r. }
  rewrite IH, entry_index_append, <-app_assoc. f_equal.
  destruct (decide (k' = k)) as [->|Hne].
  - rewrite bool_decide_true, (bool_decide_false (k ∈ ks)) by done.
    rewrite bool_decide_true; [done|]. apply elem_of_cons. by left.
  - rewrite bool_decide_false by done. simpl.
    destruct (decide (k ∈ ks)) as [Hin|Hin].
    + rewrite !bool_decide_true; [done| |done]. apply elem_of_cons. by right.
    + rewrite !bool_decide_false; [done| |done].
      intros [?|?]%elem_of_cons; congruence.
Qed.

Lemma keywords_fold_no_empty (v : string) (ks : list string)
    (m : gmap string (list string)) :
  Rules.no_empty_entry m →
  Rules.no_empty_entry (foldl (λ index keyword, index_append keyword v index) m ks).
Proof.
  revert m. induction ks as [|k ks IH]; intros m Hm; simpl; [done|].
  by apply IH, index_append_no_empty.
Qed.

(** What the loop of [_build_index] adds to two indexes. *)
Lemma build_index_loop ucs (ki : gmap string (list string))
    (ci : gmap FPACategory (list string)) :
  let st := foldl _build_index_step (ki, ci) ucs in
  (∀ k, Rules.entry st.1 k =
        Rules.entry ki k ++ (id <$> filter (λ uc, k ∈ _extract_keywords uc) ucs)) ∧
  (∀ c, Rules.entry st.2 c =
        Rules.entry ci c ++ (id <$> filter (λ uc, category uc = c) ucs)) ∧
  (Rules.no_empty_entry ki → Rules.no_empty_entry st.1) ∧
  (Rules.no_empty_entry ci → Rules.no_empty_entry st.2).
Proof.
  revert ki ci. induction ucs as [|uc ucs IH]; intros ki ci; simpl.
  { split_and!; try done; intros; by rewrite app_nil_r. }
  set (ki' := foldl (λ index keyword, index_append keyword (id uc) index)
                    ki (_extract_keywords uc)).
  set (ci' := index_append (category uc) (id uc) ci).
  destruct (IH ki' ci') as (Hk & Hc & Hnk & Hnc). split_and!.
  - intros k. rewrite Hk. subst ki'.
    rewrite keywords_fold_entry by apply extract_keywords_NoDup.
    rewrite <-app_assoc. f_equal. rewrite filter_cons.
    destruct (decide (k ∈ _extract_keywords uc)).
    + by rewrite bool_decide_true.
    + by rewrite bool_decide_false.
  - intros c. rewrite Hc. subst ci'. rewrite entry_index_append, <-app_assoc.
    f_equal. rewrite filter_cons.
    destruct (decide (category uc = c)).
    + by rewrite bool_decide_true.
    + by rewrite bool_decide_false.
  - intros Hm. by apply Hnk, keywords_fold_no_empty.
  - intros Hm. by apply Hnc, index_append_no_empty.
Qed.

Lemma no_empty_entry_empty `{Countable K} :
  Rules.no_empty_entry (∅ : gmap K (list string)).
Proof. intros k l. by rewrite lookup_empty. Qed.

Lemma init_indexes db :
  keyword_index (UseCaseSearcher_init db) = (_build_index db).1 ∧
  category_index (UseCaseSearcher_init db) = (_build_index db).2.
Proof. unfold UseCaseSearcher_init. by destruct (_build_index db). Qed.

Lemma fmap_nil_iff {A B} (f : A → B) (l : list A) : f <$> l = [] ↔ l = [].
Proof. split; [apply fmap_nil_inv | by intros ->]. Qed.

Lemma filter_nil_iff {A} (P : A → Prop) `{!∀ x, Decision (P x)} (l : list A) :
  filter P l = [] ↔ ∀ x, x ∈ l → ¬ P x.
Proof.
  split.
  - intros Hnil x Hin HP. by apply (filter_nil_not_elem_of P l x).
  - intros Hall. induction l as [|x l IH]; [done|].
    rewrite filter_cons_False.
    + apply IH. intros y Hy. apply Hall, elem_of_cons. by right.
    + apply Hall, elem_of_cons. by left.
Qed.

(** X14. The keyword index built by the constructor holds, for every
    keyword, the ids of the records that have this keyword, in catalog
    order; a keyword of no record is no key of the index. *)
Theorem keyword_index_lists_records db k :
  let index := keyword_index (UseCaseSearcher_init db) in
  Rules.entry index k = Rules.ids_where (λ uc, k ∈ _extract_keywords uc) db ∧
  (index !! k = None ↔ ∀ uc, uc ∈ use_cases db → k ∉ _extract_keywords uc).
Proof.
  intros index. subst index. destruct (init_indexes db) as [-> _].
  destruct (build_index_loop (use_cases db) ∅ ∅) as (Hk & _ & Hne & _).
  unfold _build_index, get_all_use_cases.
  assert (Rules.entry (foldl _build_index_step (∅, ∅) (use_cases db)).1 k =
          Rules.ids_where (λ uc, k ∈ _extract_keywords uc) db) as Hentry.
  { rewrite Hk. unfold Rules.entry at 1. by rewrite lookup_empty. }
  split; [done|].
  rewrite no_empty_entry_None by apply Hne, no_empty_entry_empty.
  rewrite Hentry. unfold Rules.ids_where. rewrite fmap_nil_iff.
  apply filter_nil_iff.
Qed.

(** X15. The category index built by the constructor holds, for every
    category, the ids of the records that [get_by_category] returns, in
    the same order; a category without records is no key of the index. *)
Theorem category_index_lists_records db c :
  let index := category_index (UseCaseSearcher_init db) in
  Rules.entry index c = id <$> get_by_category db c ∧
  (index !! c = None ↔ get_by_category db c = []).
Proof.
  intros index. subst index. destruct (init_indexes db) as [_ ->].
  destruct (build_index_loop (use_cases db) ∅ ∅) as (_ & Hc & _ & Hne).
  unfold _build_index, get_all_use_cases.
  assert (Rules.entry (foldl _build_index_step (∅, ∅) (use_cases db)).2 c =
          id <$> get_by_category db c) as Hentry.
  { rewrite Hc. unfold Rules.entry at 1. by rewrite lookup_empty. }
  split; [done|].
  rewrite no_empty_entry_None by apply Hne, no_empty_entry_empty.
  rewrite Hentry. apply fmap_nil_iff.
Qed.
End index_facts.

(** ** The database accessors *)

Section database_facts.
Implicit Types (uc : UseCase) (db : UseCaseDatabase) (query : string).

Lemma database_search_loop query_lower ucs results :
  foldl (database_search_step query_lower) results ucs =
  results ++ filter (λ uc, str_in query_lower (searchable uc)) ucs.
Proof.
  revert results. induction ucs as [|uc ucs IH]; intros results; simpl.
  { by rewrite app_nil_r. }
  rewrite IH, filter_cons. unfold database_search_step.
  destruct (str_in query_lower (searchable uc)); simpl.
  - by rewrite <-app_assoc.
  - done.
Qed.

Lemma database_search_filter db query :
  database_search db query =
  filter (λ uc, str_in (lower query) (searchable uc)) (use_cases db).
Proof. unfold database_search. by rewrite database_search_loop. Qed.

Lemma searchable_parts uc :
  searchable uc =
  lower (title uc) +:+ " " +:+ lower (description uc) +:+ " " +:+
  join " " (lower <$> tags uc).
Proof. unfold searchable. by rewrite !lower_app, lower_join. Qed.

(** X16. The keyword search of the database returns, in catalog order, the
    records whose title, description or tags hold the query without regard
    to case: a record is found whenever the lowercased query is a
    substring of its lowercased title, description or of one of its
    lowercased tags, and the empty query finds every record. *)
Theorem database_search_finds db query :
  database_search db query `sublist_of` use_cases db ∧
  (∀ uc, uc ∈ use_cases db →
     (str_in (lower query) (lower (title uc)) = true ∨
      str_in (lower query) (lower (description uc)) = true ∨
      ∃ tag, tag ∈ tags uc ∧ str_in (lower query) (lower tag) = true) →
     uc ∈ database_search db query) ∧
  database_search db "" = use_cases db.
Proof.
  rewrite !database_search_filter. split_and!.
  - apply sublist_filter.
  - intros uc Hin Hfound. apply list_elem_of_filter. split; [|done].
    apply Is_true_true. rewrite searchable_parts.
    destruct Hfound as [H|[H|(tag & Htag & H)]].
    + by apply str_in_app_l.
    + by apply str_in_app_r, str_in_app_r, str_in_app_l.
    + do 4 apply str_in_app_r.
      apply (str_in_join _ _ (lower tag)); [|done].
      by apply list_elem_of_fmap_2.
  - induction (use_cases db) as [|uc ucs IH]; [done|].
    rewrite filter_cons_True, IH; [done|].
    apply Is_true_true, str_in_empty.
Qed.

(** The number of records of each category. *)
Lemma category_partition ucs :
  foldr (λ c acc, length (filter (λ uc, category uc = c) ucs) + acc)%nat 0%nat
        FPACategory_members = length ucs.
Proof.
  induction ucs as [|uc ucs IH]; [done|].
  simpl in *. rewrite !filter_cons.
  destruct (category uc); repeat case_decide; try done; simpl; lia.
Qed.

Lemma complexity_partition ucs :
  foldr (λ c acc, length (filter (λ uc, complexity uc = c) ucs) + acc)%nat 0%nat
        ComplexityLevel_members = length ucs.
Proof.
  induction ucs as [|uc ucs IH]; [done|].
  simpl in *. rewrite !filter_cons.
  destruct (complexity uc); repeat case_decide; try done; simpl; lia.
Qed.

(** X17. [get_by_category] cuts the catalog into ten lists: each keeps the
    catalog order and holds the records of its category only, a record of
    the catalog is in the list of its own category, and the lengths of the
    ten lists add up to the size of the catalog.  [get_by_complexity] does
    the same with four lists. *)
Theorem accessors_partition db :
  (∀ c, get_by_category db c `sublist_of` use_cases db ∧
        ∀ uc, uc ∈ get_by_category db c ↔ uc ∈ use_cases db ∧ category uc = c) ∧
  foldr (λ c acc, length (get_by_category db c) + acc)%nat 0%nat
        FPACategory_members = length (use_cases db) ∧
  (∀ x, get_by_complexity db x `sublist_of` use_cases db ∧
        ∀ uc, uc ∈ get_by_complexity db x ↔
              uc ∈ use_cases db ∧ complexity uc = x) ∧
  foldr (λ x acc, length (get_by_complexity db x) + acc)%nat 0%nat
        ComplexityLevel_members = length (use_cases db).
Proof.
  unfold get_by_category, get_by_complexity. split_and!.
  - intros c. split; [apply sublist_filter|].
    intros uc. rewrite list_elem_of_filter. tauto.
  - apply category_partition.
  - intros x. split; [apply sublist_filter|].
    intros uc. rewrite list_elem_of_filter. tauto.
  - apply complexity_partition.
Qed.
End database_facts.

(** ** Statistics and the values of the enumerations *)

Section statistics_facts.
Implicit Types (uc : UseCase) (db : UseCaseDatabase) (d : gmap string Z).

Lemma FPACategory_value_inj c c' :
  FPACategory_value c = FPACategory_value c' → c = c'.
Proof. by destruct c, c'. Qed.

Lemma ComplexityLevel_value_inj x x' :
  ComplexityLevel_value x = ComplexityLevel_value x' → x = x'.
Proof. by destruct x, x'. Qed.

Lemma tally_count_up (k k' : string) d :
  Rules.tally (count_up k d) k' =
  Rules.tally d k' + (if bool_decide (k = k') then 1 else 0).
Proof.
  unfold Rules.tally, count_up. destruct (decide (k = k')) as [->|Hne].
  - by rewrite lookup_insert_eq, bool_decide_true.
  - rewrite lookup_insert_ne, bool_decide_false by done. lia.
Qed.

Lemma count_up_None (k k' : string) d :
  count_up k d !! k' = None ↔ k ≠ k' ∧ d !! k' = None.
Proof.
  unfold count_up. destruct (decide (k = k')) as [->|Hne].
  - rewrite lookup_insert_eq. split; [done | by intros [? _]].
  - rewrite lookup_insert_ne by done. tauto.
Qed.

(** What the loop of [get_statistics] adds to the three accumulators. *)
Lemma statistics_loop ucs (bc bx : gmap string Z) (src : gset string) :
  let st := foldl get_statistics_step (bc, bx, src) ucs in
  (∀ v, Rules.tally st.1.1 v =
        Rules.tally bc v +
        Spec.count (λ uc, FPACategory_value (category uc) = v) ucs) ∧
  (∀ v, Rules.tally st.1.2 v =
        Rules.tally bx v +
        Spec.count (λ uc, ComplexityLevel_value (complexity uc) = v) ucs) ∧
  (∀ v, st.1.1 !! v = None ↔
        bc !! v = None ∧ ∀ uc, uc ∈ ucs → FPACategory_value (category uc) ≠ v) ∧
  (∀ v, st.1.2 !! v = None ↔
        bx !! v = None ∧
        ∀ uc, uc ∈ ucs → ComplexityLevel_value (complexity uc) ≠ v) ∧
  st.2 = src ∪ list_to_set (source <$> ucs).
Proof.
  revert bc bx src. induction ucs as [|uc ucs IH]; intros bc bx src; simpl.
  { split_and!.
    - intros v. unfold Spec.count. simpl. lia.
    - intros v. unfold Spec.count. simpl. lia.
    - intros v. split; [|tauto]. intros ?. split; [done|].
      by intros ? ?%elem_of_nil.
    - intros v. split; [|tauto]. intros ?. split; [done|].
      by intros ? ?%elem_of_nil.
    - by rewrite (right_id_L ∅ (∪)). }
  destruct (IH (count_up (FPACategory_value (category uc)) bc)
               (count_up (ComplexityLevel_value (complexity uc)) bx)
               (src ∪ {[source uc]})) as (H1 & H2 & H3 & H4 & H5).
  split_and!.
  - intros v. rewrite H1, tally_count_up, count_cons.
    destruct (decide (FPACategory_value (category uc) = v)).
    + rewrite bool_decide_true by done. lia.
    + rewrite bool_decide_false by done. lia.
  - intros v. rewrite H2, tally_count_up, count_cons.
    destruct (decide (ComplexityLevel_value (complexity uc) = v)).
    + rewrite bool_decide_true by done. lia.
    + rewrite bool_decide_false by done. lia.
  - intros v. rewrite H3, count_up_None. split.
    + intros [[Hne Hbc] Hall]. split; [done|].
      intros uc' [->|Hin]%elem_of_cons; [done | by apply Hall].
    + intros [Hbc Hall]. split_and!; [|done|].
      * apply Hall, elem_of_cons. by left.
      * intros uc' Hin. apply Hall, elem_of_cons. by right.
  - intros v. rewrite H4, count_up_None. split.
    + intros [[Hne Hbc] Hall]. split; [done|].
      intros uc' [->|Hin]%elem_of_cons; [done | by apply Hall].
    + intros [Hbc Hall]. split_and!; [|done|].
      * apply Hall, elem_of_cons. by left.
      * intros uc' Hin. apply Hall, elem_of_cons. by right.
  - rewrite H5. csimpl. by rewrite (assoc_L (∪)).
Qed.

Lemma count_category ucs c :
  Spec.count (λ uc, FPACategory_value (category uc) = FPACategory_value c) ucs =
  Z.of_nat (length (filter (λ uc, category uc = c) ucs)).
Proof.
  unfold Spec.count. do 2 f_equal. apply list_filter_iff.
  intros uc. split; [apply FPACategory_value_inj | by intros ->].
Qed.

Lemma count_complexity ucs x :
  Spec.count (λ uc, ComplexityLevel_value (complexity uc) =
                    ComplexityLevel_value x) ucs =
  Z.of_nat (length (filter (λ uc, complexity uc = x) ucs)).
Proof.
  unfold Spec.count. do 2 f_equal. apply list_filter_iff.
  intros uc. split; [apply ComplexityLevel_value_inj | by intros ->].
Qed.

(** X18. The statistics agree with the accessors: the count filed under the
    value of a category (of a complexity level) is the number of records
    that [get_by_category] ([get_by_complexity]) returns for it, a value is
    a key only if some record has it, the counts of the ten categories add
    up to the total, and the sources are listed once each, exactly those
    of the records. *)
Theorem statistics_agree db :
  let stats := get_statistics db in
  (∀ c, Rules.tally (by_category stats) (FPACategory_value c) =
        Z.of_nat (length (get_by_category db c))) ∧
  (∀ x, Rules.tally (by_complexity stats) (ComplexityLevel_value x) =
        Z.of_nat (length (get_by_complexity db x))) ∧
  (∀ v, by_category stats !! v = None ↔
        ∀ uc, uc ∈ use_cases db → FPACategory_value (category uc) ≠ v) ∧
  (∀ v, by_complexity stats !! v = None ↔
        ∀ uc, uc ∈ use_cases db → ComplexityLevel_value (complexity uc) ≠ v) ∧
  foldr (λ c acc, Rules.tally (by_category stats) (FPACategory_value c) + acc)
        0 FPACategory_members = total_use_cases stats ∧
  NoDup (sources stats) ∧
  (∀ s, s ∈ sources stats ↔ ∃ uc, uc ∈ use_cases db ∧ source uc = s).
Proof.
  intros stats.
  destruct (statistics_loop (use_cases db) ∅ ∅ ∅) as (H1 & H2 & H3 & H4 & H5).
  subst stats. unfold get_statistics.
  destruct (foldl get_statistics_step (∅, ∅, ∅) (use_cases db))
    as [[bc bx] src].
  cbn [by_category by_complexity sources total_use_cases fst snd] in *.
  assert (∀ c, Rules.tally bc (FPACategory_value c) =
               Z.of_nat (length (get_by_category db c))) as Hcat.
  { intros c. rewrite H1, count_category. unfold Rules.tally.
    rewrite lookup_empty. simpl. unfold get_by_category. lia. }
  split_and!.
  - done.
  - intros x. rewrite H2, count_complexity. unfold Rules.tally.
    rewrite lookup_empty. simpl. unfold get_by_complexity. lia.
  - intros v. rewrite H3, lookup_empty. tauto.
  - intros v. rewrite H4, lookup_empty. tauto.
  - unfold FPACategory_members. cbn [foldr]. rewrite !Hcat.
    pose proof (category_partition (use_cases db)) as Hsum.
    unfold FPACategory_members, get_by_category in *. simpl in Hsum. lia.
  - apply NoDup_elements.
  - intros s. rewrite elem_of_elements, H5, elem_of_union, elem_of_list_to_set,
      list_elem_of_fmap. split.
    + intros [[]%elem_of_empty|(uc & -> & Hin)]. by exists uc.
    + intros (uc & Hin & <-). right. by exists uc.
Qed.

(** X19. The values of the categories and of the complexity levels
    identify their members: looking a member up by its value gives the
    member back, a string that is looked up successfully is the value of
    the member found, and the category argument of the command line is
    matched without regard to case. *)
Theorem enum_value_round_trip :
  (∀ c, FPACategory_of_value (FPACategory_value c) = Some c) ∧
  (∀ v c, FPACategory_of_value v = Some c → FPACategory_value c = v) ∧
  (∀ arg c, parse_category arg = Some c ↔ lower arg = FPACategory_value c) ∧
  (∀ x, ComplexityLevel_of_value (ComplexityLevel_value x) = Some x) ∧
  (∀ v x, ComplexityLevel_of_value v = Some x → ComplexityLevel_value x = v).
Proof.
  assert (∀ c, FPACategory_of_value (FPACategory_value c) = Some c) as H1
    by (by intros []).
  assert (∀ v c, FPACategory_of_value v = Some c → FPACategory_value c = v)
    as H2.
  { intros v c [_ H]%List.find_some. by apply bool_decide_eq_true in H. }
  split_and!; [done|done| |by intros []|].
  - intros arg c. unfold parse_category. split; [by intros ->%H2|].
    intros ->. apply H1.
  - intros v x [_ H]%List.find_some. by apply bool_decide_eq_true in H.
Qed.
End statistics_facts.

(** ** The category table *)

Section category_facts.
Implicit Types (c : FPACategory) (text : string).
Implicit Types (table : list (FPACategory * CategoryInfo.t)).

Lemma keywords_loop_spec c (keywords : list string) text_lower
    (matches : list FPACategory) :
  keywords_loop c keywords text_lower matches =
  if existsb (λ keyword, str_in (lower keyword) text_lower) keywords
  then if bool_decide (c ∉ matches) then matches ++ [c] else matches
  else matches.
Proof.
  induction keywords as [|keyword keywords IH]; [done|].
  simpl. by destruct (str_in (lower keyword) text_lower).
Qed.

Lemma find_in_table_loop table text (matches : list FPACategory) :
  NoDup (matches ++ table.*1) →
  foldl (λ matches '(c, info),
           keywords_loop c (CategoryInfo.keywords info) (lower text) matches)
        matches table =
  matches ++ (filter (λ kv, Rules.keyword_hit text kv.2) table).*1.
Proof.
  revert matches. induction table as [|[c info] table IH]; intros matches Hnd.
  { simpl. by rewrite app_nil_r. }
  csimpl in *. rewrite keywords_loop_spec, filter_cons. simpl.
  fold (Rules.keyword_hit text info).
  assert (c ∉ matches) as Hc.
  { apply NoDup_app in Hnd as (_ & Hdis & _). intros Hin.
    apply (Hdis c Hin), elem_of_cons. by left. }
  destruct (Rules.keyword_hit text info); simpl.
  - rewrite bool_decide_true by done. rewrite IH.
    + by rewrite <-app_assoc.
    + by rewrite <-app_assoc.
  - apply IH. apply NoDup_app in Hnd as (Hm & Hdis & [_ Ht]%NoDup_cons).
    apply NoDup_app. split_and!; [done| |done].
    intros x Hx Hin. apply (Hdis x Hx), elem_of_cons. by right.
Qed.

Lemma table_get_Some {V} (t : list (FPACategory * V)) c (v : V) :
  NoDup t.*1 → table_get t c = Some v ↔ (c, v) ∈ t.
Proof.
  unfold table_get. induction t as [|[c' v'] t IH]; csimpl.
  { intros _. split; [done | by intros ?%elem_of_nil]. }
  intros [Hc' Hnd]%NoDup_cons. rewrite elem_of_cons.
  destruct (decide (c' = c)) as [->|Hne].
  - rewrite bool_decide_true by done. simpl. split.
    + intros [= ->]. by left.
    + intros [[= ->]|Hin]; [done|]. destruct Hc'.
      apply list_elem_of_fmap. by exists (c, v).
  - rewrite bool_decide_false by done. rewrite IH by done. split; [by right|].
    intros [[= ? ?]|?]; [congruence | done].
Qed.

Lemma CATEGORIES_keys : CATEGORIES.*1 = FPACategory_members.
Proof. reflexivity. Qed.

Lemma CATEGORIES_NoDup : NoDup CATEGORIES.*1.
Proof.
  rewrite CATEGORIES_keys.
  apply (bool_decide_unpack (NoDup FPACategory_members)). by vm_compute.
Qed.

(** X20. [find_category_by_keywords] returns, in the order of the table and
    each once, the categories of which some keyword occurs in the text
    without regard to case. *)
Theorem find_category_by_keywords_spec text :
  find_category_by_keywords text =
    (filter (λ kv, Rules.keyword_hit text kv.2) CATEGORIES).*1 ∧
  NoDup (find_category_by_keywords text) ∧
  find_category_by_keywords text `sublist_of` FPACategory_members ∧
  (∀ c, c ∈ find_category_by_keywords text ↔
        ∃ info, get_category c = Some info ∧ Rules.keyword_hit text info).
Proof.
  assert (find_category_by_keywords text =
          (filter (λ kv, Rules.keyword_hit text kv.2) CATEGORIES).*1) as Heq.
  { unfold find_category_by_keywords, find_in_table. cbv zeta.
    rewrite find_in_table_loop; [done|]. apply CATEGORIES_NoDup. }
  assert (find_category_by_keywords text `sublist_of` FPACategory_members)
    as Hsub.
  { rewrite Heq, <-CATEGORIES_keys. apply fmap_sublist, sublist_filter. }
  split_and!; [done| |done|].
  - eapply sublist_NoDup; [|exact Hsub].
    rewrite <-CATEGORIES_keys. apply CATEGORIES_NoDup.
  - intros c. rewrite Heq, list_elem_of_fmap. split.
    + intros ([c' info] & -> & [Hhit Hin]%list_elem_of_filter).
      exists info. split; [|done].
      by apply (table_get_Some CATEGORIES), Hin; apply CATEGORIES_NoDup.
    + intros (info & Hget & Hhit). exists (c, info). split; [done|].
      apply list_elem_of_filter. split; [done|].
      by apply (table_get_Some CATEGORIES) in Hget; [|apply CATEGORIES_NoDup].
Qed.

(** X21. The category table is complete: every category has its entry, the
    entry names that category, the entries come in the order of the
    members, and the dictionary of display names has, under the value of
    every category, the name of its entry. *)
Theorem category_table_complete :
  (∀ c, ∃ info, get_category c = Some info ∧ CategoryInfo.category info = c ∧
                get_category_names !! FPACategory_value c =
                  Some (CategoryInfo.name info)) ∧
  CategoryInfo.category <$> get_all_categories = FPACategory_members ∧
  size get_category_names = 10%nat.
Proof.
  split_and!.
  - intros c. destruct c; eexists; split_and!; try reflexivity; by vm_compute.
  - reflexivity.
  - by vm_compute.
Qed.
End category_facts.

(** ** More on the free-text search *)

Section search_more.
Implicit Types (self : UseCaseSearcher) (db : UseCaseDatabase).
Implicit Types (uc : UseCase) (query : string) (qk : gset string).
Implicit Types (categories : option (list FPACategory)).
Implicit Types (wanted : option ComplexityLevel) (limit : Z).

Lemma submseteq_NoDup {A} (l k : list A) : l ⊆+ k → NoDup k → NoDup l.
Proof.
  intros (k' & Hsub & Hperm)%submseteq_sublist_l Hk.
  eapply sublist_NoDup; [|exact Hsub]. by rewrite Hperm.
Qed.

Lemma nil_no_elem {A} (l : list A) : (∀ x, x ∉ l) → l = [].
Proof.
  destruct l as [|x l]; [done|]. intros H. destruct (H x).
  apply elem_of_cons. by left.
Qed.

Lemma slice_sort_submseteq {A} (key : A → Z) (l : list A) limit :
  slice_to (sort_desc key l) limit ⊆+ l.
Proof.
  trans (sort_desc key l).
  - apply sublist_submseteq, prefix_of_sublist, slice_to_prefix.
  - apply Permutation_submseteq, sort_desc_perm.
Qed.

Lemma search_records_submseteq self query categories wanted limit :
  use_case <$> search self query categories wanted limit
    ⊆+ use_cases (database self).
Proof.
  rewrite search_naive. unfold Spec.naive_search.
  trans (use_case <$> Spec.candidates (database self) query categories wanted).
  - apply fmap_submseteq, slice_sort_submseteq.
  - apply sublist_submseteq, candidates_sublist.
Qed.

Lemma search_ids_NoDup self query categories wanted limit :
  NoDup (id <$> use_cases (database self)) →
  NoDup (id ∘ use_case <$> search self query categories wanted limit).
Proof.
  intros Hnd. rewrite list_fmap_compose.
  eapply submseteq_NoDup; [|exact Hnd].
  apply fmap_submseteq, search_records_submseteq.
Qed.

Lemma passes_filters categories wanted uc :
  Spec.passes categories wanted uc = true →
  (∀ c cs, categories = Some (c :: cs) → category uc ∈ c :: cs) ∧
  (∀ x, wanted = Some x → complexity uc = x).
Proof.
  unfold Spec.passes. rewrite andb_true_iff, !negb_true_iff. intros [Hc Hx].
  split.
  - intros c cs ->. simpl in Hc. unfold category_not_in in Hc. simpl in Hc.
    apply negb_false_iff, bool_decide_eq_true in Hc. done.
  - intros x ->. simpl in Hx.
    by apply negb_false_iff, bool_decide_eq_true in Hx.
Qed.

(** X1. [search] returns records of the catalog, each at most as often as
    the catalog holds it (no id twice when the ids of the catalog are
    unique), and only records that pass the filters: the category of a
    result is in the category list when that list is not empty, and its
    complexity is the wanted one when one is given. *)
Theorem search_results_filtered self query categories wanted limit :
  use_case <$> search self query categories wanted limit
    ⊆+ use_cases (database self) ∧
  (NoDup (id <$> use_cases (database self)) →
   NoDup (id ∘ use_case <$> search self query categories wanted limit)) ∧
  (∀ r, r ∈ search self query categories wanted limit →
     (∀ c cs, categories = Some (c :: cs) → category (use_case r) ∈ c :: cs) ∧
     (∀ x, wanted = Some x → complexity (use_case r) = x)).
Proof.
  split_and!.
  - apply search_records_submseteq.
  - apply search_ids_NoDup.
  - intros r Hr%search_subseteq%elem_of_candidates.
    destruct Hr as [_ (uc & _ & Hp & ->)]. simpl.
    apply passes_filters. by apply Is_true_true.
Qed.

Lemma mark_sublist name x : Spec.mark name x `sublist_of` [name].
Proof. unfold Spec.mark. case_match; [done | apply sublist_nil_l]. Qed.

Lemma matched_sublist uc query qk :
  Spec.matched uc query qk `sublist_of`
  ["title"; "description"; "tags"; "prompts"; "tools"; "benefits"].
Proof.
  unfold Spec.matched.
  change ["title"; "description"; "tags"; "prompts"; "tools"; "benefits"]
    with (["title"] ++ ["description"] ++ ["tags"] ++ ["prompts"] ++
          ["tools"] ++ ["benefits"]).
  repeat apply sublist_app; apply mark_sublist.
Qed.

Lemma matched_nil uc query qk :
  Spec.matched uc query qk = [] ↔ Spec.score uc query qk = 0.
Proof.
  pose proof (score_nonneg uc query qk) as (H1 & H2 & H3 & H4 & H5 & H6).
  unfold Spec.matched, Spec.score, Spec.mark.
  destruct (0 <? Spec.title_score uc query qk) eqn:E1;
  destruct (0 <? Spec.description_score uc query qk) eqn:E2;
  destruct (0 <? Spec.tags_score uc query) eqn:E3;
  destruct (0 <? Spec.prompts_score uc query) eqn:E4;
  destruct (0 <? Spec.tools_score uc query) eqn:E5;
  destruct (0 <? Spec.benefits_score uc query) eqn:E6;
  repeat match goal with
         | H : (0 <? _) = true |- _ => apply Z.ltb_lt in H
         | H : (0 <? _) = false |- _ => apply Z.ltb_ge in H
         end;
  simpl; split; intros H; first [discriminate H | lia | done].
Qed.

(** X2. The matched fields of a record are field names of the table, in
    the order of the table and each at most once; the score is never
    negative, it is 0 exactly when no field matched, and so every search
    result names at least one matched field. *)
Theorem matched_fields_explain_score uc query qk :
  (_calculate_relevance uc query qk).2 `sublist_of`
    ["title"; "description"; "tags"; "prompts"; "tools"; "benefits"] ∧
  NoDup (_calculate_relevance uc query qk).2 ∧
  0 ≤ (_calculate_relevance uc query qk).1 ∧
  ((_calculate_relevance uc query qk).2 = [] ↔
   (_calculate_relevance uc query qk).1 = 0) ∧
  (∀ self categories wanted limit r,
     r ∈ search self query categories wanted limit → matched_fields r ≠ []).
Proof.
  rewrite calculate_relevance_spec. simpl. split_and!.
  - apply matched_sublist.
  - eapply sublist_NoDup; [|apply matched_sublist].
    apply (bool_decide_unpack
      (NoDup ["title"; "description"; "tags"; "prompts"; "tools"; "benefits"])).
    by vm_compute.
  - pose proof (score_nonneg uc query qk). unfold Spec.score. lia.
  - apply matched_nil.
  - intros self categories wanted limit r Hr.
    destruct (elem_of_search _ _ _ _ _ _ Hr) as (_ & Hs & Hm & Hpos).
    rewrite Hm. intros Hnil%matched_nil. lia.
Qed.

Lemma candidates_length db query categories wanted :
  (length (Spec.candidates db query categories wanted) ≤ length (use_cases db))%nat.
Proof.
  unfold Spec.candidates. etrans; [apply length_filter|].
  rewrite length_fmap. apply length_filter.
Qed.

Lemma slice_to_length_neg {A} (l : list A) limit :
  limit < 0 → length (slice_to l limit) = (length l - Z.to_nat (- limit))%nat.
Proof.
  intros Hl. unfold slice_to. destruct (0 <=? limit) eqn:E; [lia|].
  rewrite length_take. lia.
Qed.

(** X3. The limit only cuts the complete ranking: the result for any limit
    is the slice of the result for a limit as large as the catalog.  A
    limit of 0 gives the empty list, a larger limit extends the result of
    a smaller one, and a negative limit drops that many results from the
    end of the complete ranking. *)
Theorem search_limit_cuts_ranking self query categories wanted limit :
  let full :=
    search self query categories wanted
           (Z.of_nat (length (use_cases (database self)))) in
  search self query categories wanted limit = slice_to full limit ∧
  search self query categories wanted 0 = [] ∧
  (∀ n m, 0 ≤ n ≤ m →
     search self query categories wanted n `prefix_of`
     search self query categories wanted m) ∧
  (limit < 0 →
   length (search self query categories wanted limit) =
   (length full - Z.to_nat (- limit))%nat).
Proof.
  intros full.
  assert (full = sort_desc relevance_score
            (Spec.candidates (database self) query categories wanted)) as Hfull.
  { subst full. rewrite search_naive. unfold Spec.naive_search.
    apply slice_to_all. rewrite length_sort_desc.
    pose proof (candidates_length (database self) query categories wanted).
    lia. }
  assert (search self query categories wanted limit = slice_to full limit)
    as Hcut.
  { by rewrite Hfull, search_naive. }
  split_and!; [done| | |].
  - rewrite search_naive. unfold Spec.naive_search.
    by rewrite slice_to_nonneg.
  - intros n m [Hn Hm]. rewrite !search_naive. unfold Spec.naive_search.
    rewrite !slice_to_nonneg by lia.
    set (l := sort_desc relevance_score _).
    replace (take (Z.to_nat n) l)
      with (take (Z.to_nat n) (take (Z.to_nat m) l))
      by (rewrite take_take; f_equal; lia).
    apply prefix_take.
  - intros Hneg. rewrite Hcut. by apply slice_to_length_neg.
Qed.
End search_more.

(** ** Rankings: recommendation and similarity *)

Section ranking_facts.
Implicit Types (self : UseCaseSearcher) (db : UseCaseDatabase).
Implicit Types (uc a b : UseCase) (user_context : UserContext) (limit : Z).

(** Scoring a list, keeping the positive scores, sorting, slicing and
    dropping the scores ranks the elements themselves. *)
Lemma ranked_pipeline {A} (f : A → Z) (l : list A) limit :
  (slice_to (sort_desc snd (filter (λ p, 0 < p.2) ((λ x, (x, f x)) <$> l)))
            limit).*1 =
  slice_to (sort_desc f (filter (λ x, 0 < f x) l)) limit.
Proof.
  rewrite (filter_fmap_comm (λ x, (x, f x))), sort_desc_fmap, slice_to_fmap,
    <-list_fmap_compose.
  apply list_fmap_id.
Qed.

Lemma sorted_sort_desc {A} (key : A → Z) (l : list A) :
  StronglySorted (desc key) l → sort_desc key l = l.
Proof.
  induction 1 as [|x l Hs IH Hx]; [done|].
  simpl. rewrite IH. destruct l as [|y l]; [done|]. simpl.
  apply Forall_cons in Hx as [Hy _]. unfold desc in Hy.
  destruct (key x <? key y) eqn:E; [|done]. apply Z.ltb_lt in E. lia.
Qed.

Lemma constant_sorted {A} (key : A → Z) (v : Z) (l : list A) :
  Forall (λ x, key x = v) l → StronglySorted (desc key) l.
Proof.
  induction 1 as [|x l Hx Hl IH]; constructor; [done|].
  eapply Forall_impl; [exact Hl|]. unfold desc. intros y Hy. lia.
Qed.

Lemma recommend_loop user_context ucs (scores : list (UseCase * Z)) :
  foldl (recommend_step user_context) scores ucs =
  scores ++ filter (λ p, 0 < p.2)
                   ((λ uc, (uc, recommend_score uc user_context)) <$> ucs).
Proof.
  revert scores. induction ucs as [|uc ucs IH]; intros scores; csimpl.
  { by rewrite app_nil_r. }
  rewrite IH. unfold recommend_step. rewrite filter_cons.
  simpl. destruct (0 <? recommend_score uc user_context) eqn:E.
  - apply Z.ltb_lt in E. rewrite decide_True by done. by rewrite <-app_assoc.
  - apply Z.ltb_ge in E. rewrite decide_False by lia. done.
Qed.

Lemma recommended_ranked self user_context :
  get_recommended_use_cases self user_context =
  slice_to
    (sort_desc (λ uc, recommend_score uc user_context)
       (filter (λ uc, 0 < recommend_score uc user_context)
               (use_cases (database self))))
    10.
Proof.
  unfold get_recommended_use_cases, get_all_use_cases. cbv zeta.
  rewrite recommend_loop. simpl app.
  apply (ranked_pipeline (λ uc, recommend_score uc user_context)).
Qed.

(** X7. The recommendation is the ranking of the catalog by the record
    score of the context: at most ten records of the catalog, each with a
    score above 0, in descending order of the score, records of equal
    score in catalog order. *)
Theorem recommended_is_ranking self user_context :
  let result := get_recommended_use_cases self user_context in
  let score := λ uc, recommend_score uc user_context in
  result =
    slice_to (sort_desc score
                (filter (λ uc, 0 < score uc) (use_cases (database self)))) 10 ∧
  (length result ≤ 10)%nat ∧
  result ⊆+ use_cases (database self) ∧
  Forall (λ uc, 0 < score uc) result ∧
  StronglySorted (desc score) result ∧
  (∀ s, filter (λ uc, score uc = s) result
          `sublist_of` use_cases (database self)).
Proof.
  intros result score. subst result. rewrite recommended_ranked. fold score.
  set (kept := filter (λ uc, 0 < score uc) (use_cases (database self))).
  split_and!.
  - done.
  - rewrite slice_to_nonneg, length_take by lia. lia.
  - trans kept; [apply slice_sort_submseteq|].
    apply sublist_submseteq, sublist_filter.
  - apply Forall_forall. intros uc Hin.
    apply slice_to_subseteq, sort_desc_elem_of in Hin.
    by apply list_elem_of_filter in Hin as [? _].
  - eapply sorted_prefix; [apply slice_to_prefix | apply sort_desc_sorted].
  - intros s.
    trans (filter (λ uc, score uc = s) kept).
    + rewrite <-(sort_desc_stable score s kept).
      apply prefix_of_sublist, filter_prefix, slice_to_prefix.
    + etrans; apply sublist_filter.
Qed.

Lemma tools_block_count uc user_context :
  tools_block uc user_context 0 =
  6 * Spec.count (λ tool, Rules.tool_matches uc tool)
                 (default [] (ctx_tools user_context)).
Proof.
  unfold tools_block. destruct (ctx_tools user_context) as [tools|]; simpl.
  - rewrite (foldl_add_count (Rules.tool_matches uc)). lia.
  - unfold Spec.count. simpl. lia.
Qed.

Lemma tools_block_add uc user_context score :
  tools_block uc user_context score = score + tools_block uc user_context 0.
Proof.
  unfold tools_block. case_match; [|lia].
  apply foldl_additive. intros score' tool. case_match; lia.
Qed.

(** The role adds its bonus at most once: no category is mapped to by two
    keywords of the role table. *)
Lemma role_block_once uc user_context :
  role_block uc user_context 0 =
  if from_option (Rules.role_matches uc) false (ctx_role user_context)
  then 10 else 0.
Proof.
  unfold role_block, Rules.role_matches, role_category_map.
  destruct (ctx_role user_context) as [role|]; [|done].
  cbn [from_option foldl existsb fst snd].
  destruct (category uc);
    destruct (str_in "budget" (lower role)),
             (str_in "forecast" (lower role)),
             (str_in "analyst" (lower role)),
             (str_in "manager" (lower role)),
             (str_in "controller" (lower role));
    by vm_compute.
Qed.

Lemma experience_block_rule uc user_context :
  experience_block uc user_context 0 =
  if Rules.wants_beginner user_context && Rules.easy uc then 4 else 0.
Proof.
  unfold experience_block, Rules.wants_beginner, Rules.easy.
  by repeat case_bool_decide.
Qed.

(** X8. The score of a record in a recommendation is 3.0 for each user
    tool that is a case-insensitive substring of one of the record's
    tools, plus the challenge score, plus 5.0 once if a keyword of the
    role table occurs in the role and maps to the record's category (never
    twice, whatever the role says), plus 2.0 if the experience is
    "beginner" and the record is of beginner or intermediate complexity; a
    key that is absent adds nothing. *)
Theorem recommend_score_rule uc user_context :
  recommend_score uc user_context = Rules.recommendation uc user_context ∧
  0 ≤ role_block uc user_context 0 ≤ 10 ∧
  (category uc = DATA_INTEGRATION ∨ category uc = EXCEL_INTEGRATION →
   role_block uc user_context 0 = 0).
Proof.
  split_and!.
  - unfold recommend_score, Rules.recommendation. cbv zeta.
    rewrite experience_block_add, role_block_add.
    rewrite experience_block_rule, role_block_once, tools_block_count.
    unfold challenges_block.
    destruct (ctx_challenges user_context) as [challenges|]; simpl.
    + rewrite challenges_loop_spec. lia.
    + unfold Spec.challenge_score, Spec.count. simpl. lia.
  - rewrite role_block_once. case_match; lia.
  - rewrite role_block_once. case_match; lia.
  - unfold role_block, role_category_map.
    destruct (ctx_role user_context) as [role|]; [|done].
    cbn [foldl]. intros [->| ->];
      destruct (str_in "budget" (lower role)),
               (str_in "forecast" (lower role)),
               (str_in "analyst" (lower role)),
               (str_in "manager" (lower role)),
               (str_in "controller" (lower role));
      by vm_compute.
Qed.

(** X9. A context that has none of the keys tools, challenges and role
    recommends by experience alone: for the experience "beginner" the
    first ten records of beginner or intermediate complexity in catalog
    order, and nothing otherwise; the empty context recommends nothing. *)
Theorem recommend_by_experience_only self experience :
  let user_context :=
    {| ctx_tools := None; ctx_challenges := None; ctx_role := None;
       ctx_experience := experience |} in
  get_recommended_use_cases self user_context =
    (if Rules.wants_beginner user_context
     then take 10 (filter (λ uc, Rules.easy uc) (use_cases (database self)))
     else []) ∧
  get_recommended_use_cases self empty_context = [].
Proof.
  assert (∀ experience,
    get_recommended_use_cases self
      {| ctx_tools := None; ctx_challenges := None; ctx_role := None;
         ctx_experience := experience |} =
    if Rules.wants_beginner
         {| ctx_tools := None; ctx_challenges := None; ctx_role := None;
            ctx_experience := experience |}
    then take 10 (filter (λ uc, Rules.easy uc) (use_cases (database self)))
    else []) as Hgen.
  { clear experience. intros experience.
    set (user_context := {| ctx_tools := None; ctx_experience := experience |}).
    assert (∀ uc, recommend_score uc user_context =
                  if Rules.wants_beginner user_context && Rules.easy uc
                  then 4 else 0) as Hscore.
    { intros uc. unfold recommend_score. cbv zeta.
      by rewrite <-experience_block_rule. }
    rewrite recommended_ranked.
    destruct (Rules.wants_beginner user_context) eqn:Hw.
    - rewrite (list_filter_iff _ (λ uc, Rules.easy uc)).
      + rewrite sorted_sort_desc; [by rewrite slice_to_nonneg|].
        apply (constant_sorted _ 4), Forall_forall.
        intros uc [Heasy _]%list_elem_of_filter. rewrite Hscore.
        simpl. by apply Is_true_true in Heasy as ->.
      + intros uc. rewrite Hscore. simpl.
        destruct (Rules.easy uc); simpl; [done|]. split; [lia|done].
    - rewrite (proj2 (filter_nil_iff _ _)); [apply slice_to_nil|].
      intros uc _. rewrite Hscore. simpl. lia. }
  intros user_context. split; [apply Hgen|].
  unfold empty_context. by rewrite Hgen.
Qed.


Lemma overlap_comm (x y : gset string) : overlap x y = overlap y x.
Proof. unfold overlap. by rewrite (comm_L (∩)). Qed.

Lemma similarity_sym a b : Spec.similarity a b = Spec.similarity b a.
Proof.
  unfold Spec.similarity, list_overlap.
  rewrite (overlap_comm (list_to_set (tags b))),
    (overlap_comm (list_to_set (tools_used b))).
  rewrite (bool_decide_ext (category b = category a) (category a = category b))
    by done.
  by rewrite (bool_decide_ext (complexity b = complexity a)
                              (complexity a = complexity b)).
Qed.

Lemma elem_of_similar_all db k source_uc limit uc :
  Z.of_nat (length (use_cases db)) ≤ limit →
  uc ∈ Spec.similar db k source_uc limit ↔
  uc ∈ use_cases db ∧ id uc ≠ k ∧ 0 < Spec.similarity source_uc uc.
Proof.
  intros Hlimit. rewrite similar_ranked, slice_to_all.
  - rewrite sort_desc_elem_of, !list_elem_of_filter. tauto.
  - rewrite length_sort_desc.
    pose proof (length_filter (λ uc, 0 < Spec.similarity source_uc uc)
      (filter (λ uc, id uc ≠ k) (use_cases db))).
    pose proof (length_filter (λ uc, id uc ≠ k) (use_cases db)). lia.
Qed.

(** X11. With a limit as large as the catalog, the records similar to a
    known record are exactly the other records that share something with
    it: a record with another id is returned if and only if its score is
    above 0, and so whenever it has the category or the complexity of the
    source record. *)
Theorem similar_complete self use_case_id source_uc limit :
  get_by_id (database self) use_case_id = Some source_uc →
  Z.of_nat (length (use_cases (database self))) ≤ limit →
  (∀ uc, uc ∈ get_similar_use_cases self use_case_id limit ↔
         uc ∈ use_cases (database self) ∧ id uc ≠ use_case_id ∧
         0 < Spec.similarity source_uc uc) ∧
  (∀ uc, uc ∈ use_cases (database self) → id uc ≠ use_case_id →
         category uc = category source_uc ∨
         complexity uc = complexity source_uc →
         uc ∈ get_similar_use_cases self use_case_id limit).
Proof.
  intros Hsrc Hlimit.
  assert (∀ uc, uc ∈ get_similar_use_cases self use_case_id limit ↔
         uc ∈ use_cases (database self) ∧ id uc ≠ use_case_id ∧
         0 < Spec.similarity source_uc uc) as Hiff.
  { intros uc. rewrite get_similar_spec, Hsrc. by apply elem_of_similar_all. }
  split; [done|].
  intros uc Hin Hid Hshare. apply Hiff. split_and!; [done..|].
  unfold Spec.similarity, list_overlap.
  pose proof (overlap_nonneg (list_to_set (tags uc))
                             (list_to_set (tags source_uc))).
  pose proof (overlap_nonneg (list_to_set (tools_used uc))
                             (list_to_set (tools_used source_uc))).
  destruct Hshare as [Hc|Hx].
  - rewrite (bool_decide_true _ Hc). case_bool_decide; lia.
  - rewrite (bool_decide_true _ Hx). case_bool_decide; lia.
Qed.

(** X12. Similarity is mutual: in a catalog with unique ids and with a limit
    as large as the catalog, a record is among the records similar to
    another one exactly when that one is among the records similar to
    it. *)
Theorem similar_symmetric self a b limit :
  NoDup (id <$> use_cases (database self)) →
  a ∈ use_cases (database self) → b ∈ use_cases (database self) →
  Z.of_nat (length (use_cases (database self))) ≤ limit →
  b ∈ get_similar_use_cases self (id a) limit ↔
  a ∈ get_similar_use_cases self (id b) limit.
Proof.
  intros Hnd Ha Hb Hlimit.
  assert (∀ uc, uc ∈ use_cases (database self) →
                get_by_id_loop (use_cases (database self)) (id uc) = Some uc)
    as Hget.
  { intros uc Hin.
    destruct (get_by_id_loop (use_cases (database self)) (id uc))
      as [uc'|] eqn:E.
    - apply get_by_id_loop_Some in E as [Hin' Hid].
      f_equal. by apply (catalog_id_inj (use_cases (database self))).
    - by destruct (proj1 (get_by_id_loop_None _ _) E uc Hin). }
  rewrite !get_similar_spec. unfold get_by_id. rewrite !Hget by done.
  rewrite !elem_of_similar_all by done.
  rewrite (similarity_sym b a). split; intros (_ & Hid & Hs); split_and!;
    try done; by intros ?.
Qed.
End ranking_facts.

(** ** More on the phrase aggregation, case and the empty catalog *)

Section prompt_more.
Implicit Types (self : UseCaseSearcher) (text query : string).

Lemma score_in_nonneg k (l : list SearchResult) :
  Forall (λ r, 0 < relevance_score r) l → 0 ≤ Spec.score_in k l.
Proof.
  unfold Spec.score_in. induction 1 as [|r l Hr Hl IH]; simpl; [done|].
  case_bool_decide; lia.
Qed.

Lemma score_in_pos k (l : list SearchResult) r :
  Forall (λ r, 0 < relevance_score r) l →
  r ∈ l → id (use_case r) = k → 0 < Spec.score_in k l.
Proof.
  intros Hl Hin Hk. induction Hl as [|r' l Hr' Hl IH].
  { by apply elem_of_nil in Hin. }
  pose proof (score_in_nonneg k l Hl) as Hnn.
  unfold Spec.score_in in *. simpl.
  apply elem_of_cons in Hin as [->|Hin].
  - rewrite bool_decide_true by done. lia.
  - specialize (IH Hin). case_bool_decide; lia.
Qed.

Lemma phrase_results_positive self phrases :
  Forall (λ r, 0 < relevance_score r) (phrase_results self phrases).
Proof.
  apply Forall_forall. intros r (p & _ & Hr)%phrase_results_inv.
  by destruct (elem_of_search _ _ _ _ _ _ Hr) as (_ & _ & _ & ?).
Qed.

Lemma elem_of_search_by_prompt self text e :
  e ∈ search_by_prompt self text →
  use_case e ∈ use_cases (database self) ∧ 0 < relevance_score e.
Proof.
  unfold search_by_prompt. cbv zeta. case_match.
  - intros He. by destruct (elem_of_search _ _ _ _ _ _ He) as (? & _ & _ & ?).
  - intros He%slice_to_subseteq%sort_desc_elem_of.
    apply list_elem_of_fmap in He as ([k e'] & -> & Hin). simpl.
    destruct (combine_entry _ _ _ _ Hin) as (Hk & Hs & p & r & Hp & Hr & Hu & _).
    split.
    + rewrite Hu. by destruct (elem_of_search _ _ _ _ _ _ Hr) as (? & _).
    + rewrite Hs, <-score_in_phrase_results.
      apply (score_in_pos _ _ r); [apply phrase_results_positive| |].
      * by apply (elem_of_phrase_results _ _ p).
      * by rewrite Hk, Hu.
Qed.

(** X6. Every result of [search_by_prompt] is a record of the catalog with
    a score above 0, and no id is listed twice when a key phrase was found
    or when the ids of the catalog are unique. *)
Theorem search_by_prompt_results self text :
  (∀ e, e ∈ search_by_prompt self text →
        use_case e ∈ use_cases (database self) ∧ 0 < relevance_score e) ∧
  (Exists (λ p, str_in p (lower text) = true) key_phrases →
   NoDup (id ∘ use_case <$> search_by_prompt self text)) ∧
  (NoDup (id <$> use_cases (database self)) →
   NoDup (id ∘ use_case <$> search_by_prompt self text)).
Proof.
  assert (∀ phrases,
    NoDup (id ∘ use_case <$>
             slice_to (sort_desc relevance_score (combine self phrases).*2) 10))
    as Hmerged.
  { intros phrases. eapply submseteq_NoDup.
    - apply fmap_submseteq, slice_sort_submseteq.
    - rewrite combine_ids, combine_phrase_results.
      apply merge_keys_NoDup. constructor. }
  split_and!.
  - apply elem_of_search_by_prompt.
  - intros (p & phrases & Hfound)%found_phrases_cons.
    unfold search_by_prompt. cbv zeta. rewrite Hfound. apply Hmerged.
  - intros Hnd. unfold search_by_prompt. cbv zeta. case_match.
    + by apply search_ids_NoDup.
    + apply Hmerged.
Qed.

(** X4. The text searches do not see the case of their text: the
    lowercased query gives the results of the query, for [search], for
    [search_by_prompt] and for the keyword search of the database, and two
    queries that differ in case only give the same results. *)
Theorem searches_ignore_case self query :
  (∀ categories wanted limit,
     search self (lower query) categories wanted limit =
     search self query categories wanted limit) ∧
  search_by_prompt self (lower query) = search_by_prompt self query ∧
  database_search (database self) (lower query) =
    database_search (database self) query ∧
  (∀ query' categories wanted limit,
     lower query' = lower query →
     search self query' categories wanted limit =
     search self query categories wanted limit).
Proof.
  assert (∀ categories wanted limit,
     search self (lower query) categories wanted limit =
     search self query categories wanted limit) as Hsearch.
  { intros. unfold search. cbv zeta. by rewrite lower_idemp. }
  split_and!.
  - done.
  - unfold search_by_prompt, found_phrases_of, search_default, search_limit.
    cbv zeta. by rewrite lower_idemp, Hsearch.
  - unfold database_search. cbv zeta. by rewrite lower_idemp.
  - intros query' categories wanted limit Heq. unfold search. cbv zeta.
    by rewrite Heq.
Qed.

(** X5. On an empty catalog every operation returns the empty list, the
    statistics count nothing and both indexes are empty. *)
Theorem empty_catalog_gives_nothing self :
  use_cases (database self) = [] →
  (∀ query categories wanted limit,
     search self query categories wanted limit = []) ∧
  (∀ text, search_by_prompt self text = []) ∧
  (∀ k limit, get_similar_use_cases self k limit = []) ∧
  (∀ user_context, get_recommended_use_cases self user_context = []) ∧
  (∀ query, database_search (database self) query = []) ∧
  total_use_cases (get_statistics (database self)) = 0 ∧
  _build_index (database self) = (∅, ∅).
Proof.
  intros Hempty. split_and!.
  - intros. unfold search, get_all_use_cases. cbv zeta. rewrite Hempty.
    apply slice_to_nil.
  - intros text. apply nil_no_elem.
    intros e [Hin _]%elem_of_search_by_prompt.
    rewrite Hempty in Hin. by apply elem_of_nil in Hin.
  - intros k limit. unfold get_similar_use_cases, get_by_id.
    by rewrite Hempty.
  - intros user_context. unfold get_recommended_use_cases, get_all_use_cases.
    cbv zeta. by rewrite Hempty.
  - intros query. unfold database_search. cbv zeta. by rewrite Hempty.
  - unfold get_statistics. by rewrite Hempty.
  - unfold _build_index, get_all_use_cases. by rewrite Hempty.
Qed.

(** The empty catalog itself. *)
Lemma empty_catalog_gives_nothing_witness :
  search_by_prompt (UseCaseSearcher_init empty_database)
    "how to automate budget consolidation" = [].
Proof.
  apply (empty_catalog_gives_nothing (UseCaseSearcher_init empty_database)).
  reflexivity.
Defined.
End prompt_more.

(** ** The rankings on the catalog of two budget records *)

Lemma two_budgets_ids_NoDup :
  NoDup (id <$> use_cases (database (UseCaseSearcher_init two_budgets))).
Proof.
  apply (bool_decide_unpack (NoDup ["budget-001"; "budget-003"])).
  by vm_compute.
Qed.

(** The third budget record has the category of the first, so it is among
    the records similar to it. *)
Lemma similar_complete_witness :
  budget_003 ∈
    get_similar_use_cases (UseCaseSearcher_init two_budgets) "budget-001" 5.
Proof.
  refine (proj2 (similar_complete (UseCaseSearcher_init two_budgets)
                   "budget-001" budget_001 5 _ _) budget_003 _ _ _).
  - reflexivity.
  - simpl. lia.
  - apply elem_of_cons. right. apply elem_of_cons. by left.
  - discriminate.
  - left. reflexivity.
Defined.

(** The two budget records are similar to each other. *)
Lemma similar_symmetric_witness :
  budget_003 ∈
    get_similar_use_cases (UseCaseSearcher_init two_budgets) (id budget_001) 5 ↔
  budget_001 ∈
    get_similar_use_cases (UseCaseSearcher_init two_budgets) (id budget_003) 5.
Proof.
  apply (similar_symmetric (UseCaseSearcher_init two_budgets)
           budget_001 budget_003 5).
  - exact two_budgets_ids_NoDup.
  - apply elem_of_cons. by left.
  - apply elem_of_cons. right. apply elem_of_cons. by left.
  - simpl. lia.
Defined.

Example recommend_beginner_two_budgets :
  id <$> get_recommended_use_cases (UseCaseSearcher_init two_budgets)
           {| ctx_tools := None; ctx_challenges := None; ctx_role := None;
              ctx_experience := Some "beginner" |} =
  ["budget-001"; "budget-003"].
Proof. by vm_compute. Qed.

Example find_category_examples :
  find_category_by_keywords "Monthly KPI dashboard and budget vs actual" =
    [BUDGETING; VARIANCE_ANALYSIS; REPORTING] ∧
  find_category_by_keywords "" = [] ∧
  parse_category "Variance_Analysis" = Some VARIANCE_ANALYSIS ∧
  parse_category "variance" = None.
Proof. by vm_compute. Qed.

Example statistics_two_budgets :
  by_category (get_statistics two_budgets) !! "budgeting" = Some 2 ∧
  by_category (get_statistics two_budgets) !! "forecasting" = None ∧
  by_complexity (get_statistics two_budgets) !! "intermediate" = Some 2 ∧
  total_use_cases (get_statistics two_budgets) = 2.
Proof. by vm_compute. Qed.

Example database_search_two_budgets :
  id <$> database_search two_budgets "ZERO-BASED" = ["budget-003"] ∧
  id <$> database_search two_budgets "consolidation use claude" = ["budget-001"] ∧
  _extract_keywords (bare "r01" "The KPI report, by month.") =
    elements (list_to_set ["kpi"; "report"; "month"] : gset string).
Proof. by vm_compute. Qed.
